(** * tools/profile.py: a shallow embedding of the osquery profiler

    The development follows the source function by function.
    - Python numbers ([int] and [float]) are embedded as exact rationals [Q]:
      [0.5], [0.4] and [0.8] are [1#2], [4#10] and [8#10].  Rounding of
      binary64 arithmetic is not modelled.
    - Dictionaries with string keys are [gmap string _].
    - A Python call either returns or raises: [outcome].  Code that loops on
      an external process takes fuel; [None] means the fuel ran out.
    - Strings are byte strings, as a subprocess, the file system or the
      command line gives them.  The script runs under Python 2 with
      [unicode_literals]: [s.split(sep)] with a literal [sep] first decodes
      the byte string [s] as ASCII, and raises [UnicodeDecodeError] when
      [s] has a byte of 128 or more.  This is modelled where the source
      splits the output of a leak tool, the list of restricted tables and
      the names of the specification files.  What the script prints is
      left out.
    - The outside world (subprocesses, psutil, the clock, the platform name)
      is a parameter of the functions that touch it. *)

From Stdlib Require Import ZArith QArith Qfield Ascii String List Lia Bool.
From stdpp Require Import base option gmap strings list fin_maps pretty.

#[local] Open Scope list_scope.
#[local] Arguments String.append !_ _ / : simpl nomatch.

(** ** Exceptions and outcomes *)

(** The exceptions that the modelled code can meet.  [AccessDenied] and
    [NoSuchProcess] come from psutil, the others from the interpreter. *)
Inductive exn : Type :=
  | AccessDenied
  | NoSuchProcess
  | UnboundLocalError (var : string)
  | IndexError
  | UnicodeDecodeError.

Inductive outcome (A : Type) : Type :=
  | Ok (a : A)
  | Raise (e : exn).

Arguments Ok {A} a.
Arguments Raise {A} e.

Definition bind {A B : Type} (m : outcome A) (k : A → outcome B) : outcome B :=
  match m with
  | Ok a => k a
  | Raise e => Raise e
  end.

(** Fuelled computations: [None] is "still running when the fuel ran out". *)
Definition fbind {A B : Type} (m : option (outcome A))
    (k : A → option (outcome B)) : option (outcome B) :=
  match m with
  | Some (Ok a) => k a
  | Some (Raise e) => Some (Raise e)
  | None => None
  end.

Declare Scope py_scope.
Delimit Scope py_scope with py.
Notation "'let!' x ':=' m 'in' k" := (bind m (λ x, k))
  (at level 10, x name, m at level 100, k at level 200) : py_scope.
Notation "'let?' x ':=' m 'in' k" := (fbind m (λ x, k))
  (at level 10, x name, m at level 100, k at level 200) : py_scope.
#[local] Open Scope py_scope.

(** ** Python string methods used by the leak parser *)

Module Str.

(** [unicode.isspace] on the ASCII range: TAB, LF, VT, FF, CR, the four
    separators FS, GS, RS, US and SPACE. *)
Definition isspace (c : ascii) : bool :=
  let n := nat_of_ascii c in
  (((9 <=? n) && (n <=? 13)) || ((28 <=? n) && (n <=? 32)))%nat.

(** [s.split(sep)] for a one-character separator: always a non-empty list,
    one more piece than there are separators. *)
Fixpoint split (sep : ascii) (s : string) : list string :=
  match s with
  | EmptyString => [EmptyString]
  | String c s' =>
      if Ascii.eqb c sep then EmptyString :: split sep s'
      else match split sep s' with
           | [] => [String c EmptyString]
           | piece :: rest => String c piece :: rest
           end
  end.

(** [key] is a prefix of [s]. *)
Fixpoint startswith (key s : string) : bool :=
  match key, s with
  | EmptyString, _ => true
  | String _ _, EmptyString => false
  | String a key', String b s' => Ascii.eqb a b && startswith key' s'
  end.

(** [s.find(key)]: the lowest index where [key] occurs in [s], or -1.
    [i] is the index of the first character of [s] in the whole string. *)
Fixpoint find_from (i : Z) (key s : string) : Z :=
  if startswith key s then i
  else match s with
       | EmptyString => (-1)%Z
       | String _ s' => find_from (i + 1)%Z key s'
       end.

Definition find (s key : string) : Z := find_from 0%Z key s.

Fixpoint lstrip (s : string) : string :=
  match s with
  | EmptyString => EmptyString
  | String c s' => if isspace c then lstrip s' else s
  end.

Fixpoint rstrip (s : string) : string :=
  match s with
  | EmptyString => EmptyString
  | String c s' =>
      match rstrip s' with
      | EmptyString => if isspace c then EmptyString else String c EmptyString
      | r => String c r
      end
  end.

(** [s.strip()] *)
Definition strip (s : string) : string := rstrip (lstrip s).

(** Does the character [c] occur in [s]? *)
Fixpoint has_char (c : ascii) (s : string) : bool :=
  match s with
  | EmptyString => false
  | String d s' => Ascii.eqb d c || has_char c s'
  end.

Fixpoint all_space (s : string) : bool :=
  match s with
  | EmptyString => true
  | String c s' => isspace c && all_space s'
  end.

(** Every byte of [s] is below 128. *)
Fixpoint is_ascii (s : string) : bool :=
  match s with
  | EmptyString => true
  | String c s' => (nat_of_ascii c <? 128)%nat && is_ascii s'
  end.

(** [s * n]; a count of zero or less gives the empty string. *)
Definition repeat (s : string) (n : Z) : string :=
  Nat.iter (Z.to_nat n) (String.append s) EmptyString.

End Str.

Definition linefeed : ascii := ascii_of_nat 10.
Definition colon : ascii := ":"%char.
Definition dquote : string := String (ascii_of_nat 34) EmptyString.
Definition esc : string := String (ascii_of_nat 27) EmptyString.

(** The implicit decoding of a byte string that meets a unicode literal. *)
Definition decode_ascii (s : string) : outcome string :=
  if Str.is_ascii s then Ok s else Raise UnicodeDecodeError.

(** ** Terminal colours *)

Definition red (msg : string) : string :=
  esc +:+ "[41m" +:+ esc +:+ "[1;30m " +:+ msg +:+ " " +:+ esc +:+ "[0m".
Definition yellow (msg : string) : string :=
  esc +:+ "[43m" +:+ esc +:+ "[1;30m " +:+ msg +:+ " " +:+ esc +:+ "[0m".
Definition green (msg : string) : string :=
  esc +:+ "[42m" +:+ esc +:+ "[1;30m " +:+ msg +:+ " " +:+ esc +:+ "[0m".
Definition blue (msg : string) : string :=
  esc +:+ "[46m" +:+ esc +:+ "[1;30m " +:+ msg +:+ " " +:+ esc +:+ "[0m".

(** ** Numbers *)

(** [x < y] on Python numbers. *)
Definition Qltb (x y : Q) : bool := (Qnum x * QDen y <? Qnum y * QDen x)%Z.

(** [sum(l)]: starts from 0 and adds from the left. *)
Definition sum (l : list Q) : Q := fold_left Qplus l 0%Q.

(** [len(l)] as a Python number. *)
Definition len (l : list Q) : Q := inject_Z (Z.of_nat (length l)).

(** ** RANGES *)

Definition KB : Z := (1024 * 1024)%Z.

(** A value of the [RANGES] dictionary: the tuple of colour functions under
    ["colors"], a tuple of thresholds under every other key. *)
Inductive range_entry : Type :=
  | Colors (cs : list (string → string))
  | Thresholds (ts : list Q).

Definition RANGES : gmap string range_entry :=
  list_to_map
    [ ("colors", Colors [blue; green; yellow; red]);
      ("utilization", Thresholds [8; 20; 50]%Q);
      ("cpu_time", Thresholds [4 # 10; 1; 10]%Q);
      ("memory", Thresholds [inject_Z (8 * KB); inject_Z (12 * KB); inject_Z (24 * KB)]);
      ("fds", Thresholds [6; 12; 50]%Q);
      ("duration", Thresholds [8 # 10; 1; 3]%Q) ].

(** ** check_leaks_linux, check_leaks_darwin, profile_leaks *)

Module Leaks.

(** The keys of [summary], in the order the inner loop visits them.  Each
    key only ever writes its own entry, and an exception under any key
    ends the call, so the order does not show in the outcome. *)
Definition keys : list string := ["definitely"; "indirectly"; "possibly"].

(** [summary = {"definitely": None, "indirectly": None, "possibly": None}] *)
Definition summary0 : gmap string (option string) :=
  <["definitely" := None]> (<["indirectly" := None]> (<["possibly" := None]> ∅)).

(** [line.split(":")[1].strip()]; the subscript raises [IndexError] when
    the line has no colon. *)
Definition field (line : string) : outcome string :=
  match Str.split colon line !! 1%nat with
  | Some piece => Ok (Str.strip piece)
  | None => Raise IndexError
  end.

(** One pass of [for key in summary] over a line. *)
Fixpoint scan_keys (ks : list string) (line : string)
    (summary : gmap string (option string)) : outcome (gmap string (option string)) :=
  match ks with
  | [] => Ok summary
  | key :: ks' =>
      if (Str.find line key >=? 0)%Z then
        let! v := field line in
        scan_keys ks' line (<[key := Some v]> summary)
      else scan_keys ks' line summary
  end.

(** [for line in ...] over the lines of the decoded output *)
Fixpoint scan_lines (lines : list string)
    (summary : gmap string (option string)) : outcome (gmap string (option string)) :=
  match lines with
  | [] => Ok summary
  | line :: lines' =>
      let! summary' := scan_keys keys line summary in
      scan_lines lines' summary'
  end.

(** The parsing half of [check_leaks_linux], on the captured [stderr]:
    [stderr.split("\n")] decodes the byte string [stderr] first. *)
Definition parse_stderr (stderr : string) : outcome (gmap string (option string)) :=
  let! text := decode_ascii stderr in
  scan_lines (Str.split linefeed text) summary0.

(** The command line that [check_leaks_linux] hands to the shell. *)
Definition valgrind_cmd (shell query : string) (supp_file : option string) : string :=
  let suppressions :=
    match supp_file with
    | None => EmptyString
    | Some f => "--suppressions=" +:+ f
    end in
  "valgrind --tool=memcheck " +:+ suppressions +:+ " " +:+ shell
    +:+ " --query=" +:+ dquote +:+ query +:+ dquote.

(** The [try] block of [check_leaks_darwin] on one output of the [leaks]
    tool.  The bare [except] swallows the [IndexError] of a line without a
    colon: the scan of that output stops and [leak_checks] keeps the value
    it had. *)
Fixpoint scan_darwin (lines : list string) (leak_checks : option string) : option string :=
  match lines with
  | [] => leak_checks
  | line :: lines' =>
      if (Str.find line "total leaked bytes" >=? 0)%Z then
        match field line with
        | Ok v => scan_darwin lines' (Some v)
        | Raise _ => leak_checks
        end
      else scan_darwin lines' leak_checks
  end.

(** The display loop of [profile_leaks].  [output[0]] raises [IndexError]
    on an empty string. *)
Fixpoint display_loop (ks : list string) (summary : gmap string (option string))
    (display : list string) : outcome (list string) :=
  match ks with
  | [] => Ok display
  | key :: ks' =>
      match summary !! key with
      | None => display_loop ks' summary display
      | Some None => display_loop ks' summary (display ++ [key +:+ ": None"])
      | Some (Some output) =>
          match output with
          | EmptyString => Raise IndexError
          | String c _ =>
              let output :=
                if negb (Ascii.eqb c "0")
                then (if String.eqb key "definitely" then red output
                      else if String.eqb key "indirectly" then yellow output
                      else output)
                else output in
              display_loop ks' summary (display ++ [key +:+ ": " +:+ output])
          end
      end
  end.

Section World.
(** [communicate n cmd] is the pair [(stdout, stderr)] that the [n]-th
    subprocess of the run gives back when it is started on [cmd]. *)
Variable communicate : nat → string → string * string.

Definition check_leaks_linux (n : nat) (shell query : string)
    (supp_file : option string) : outcome (gmap string (option string)) :=
  let (_, stderr) := communicate n (valgrind_cmd shell query supp_file) in
  parse_stderr stderr.

(** [profile_leaks] on a platform other than darwin; [queries] lists the
    dictionary in the order [iteritems] yields it. *)
Fixpoint profile_leaks_loop (n : nat) (shell : string) (queries : list (string * string))
    (count : Z) (supp_file : option string)
    (report : gmap string (gmap string (option string)))
    : outcome (gmap string (gmap string (option string))) :=
  match queries with
  | [] => Ok report
  | (name, query) :: queries' =>
      let! summary := check_leaks_linux n shell (Str.repeat query count) supp_file in
      let! _display := display_loop keys summary [] in
      profile_leaks_loop (S n) shell queries' count supp_file (<[name := summary]> report)
  end.

Definition profile_leaks (shell : string) (queries : list (string * string))
    (count : Z) (supp_file : option string)
    : outcome (gmap string (gmap string (option string))) :=
  profile_leaks_loop 0 shell queries count supp_file ∅.
End World.

End Leaks.

(** ** psutil *)

Module Psutil.

Record cputimes : Type := { user : Q; system : Q }.
Record meminfo : Type := { rss : Z; vms : Z }.

(** What a [psutil.Process] answers.  The index is the number of the
    iteration of the polling loop in which the method is called. *)
Record Process : Type := {
  is_running : nat → bool;
  cpu_percent : nat → Q → outcome Q;
  io_counters : nat → outcome (list Z);
  num_fds : nat → outcome Z;
  cpu_times : nat → outcome cputimes;
  memory_info_ex : nat → outcome meminfo;
  (** [time.time()] before the launch, and after the loop has collected
      a given number of samples *)
  time_start : Q;
  time_end : nat → Q
}.

End Psutil.

(** ** get_stats, run_query, summary, profile *)

Module Profile.
Import Psutil.

(** The dictionary that [get_stats] returns. *)
Record stats : Type := {
  utilization : Q;
  counters : option (list Z);
  fds : Z;
  s_cpu_times : cputimes;
  memory : meminfo
}.

Definition get_stats (platform : string) (p : Process) (i : nat) (interval : Q)
    : outcome stats :=
  let! utilization := cpu_percent p i interval in
  let! counters :=
    (if String.eqb platform "darwin" then Ok None
     else let! c := io_counters p i in Ok (Some c)) in
  let! fds := num_fds p i in
  let! cpu_times := cpu_times p i in
  let! memory := memory_info_ex p i in
  Ok {| utilization := utilization; counters := counters; fds := fds;
        s_cpu_times := cpu_times; memory := memory |}.

Definition step : Q := 1 # 2.

(** The local variables of [run_query] that the loop writes, and whether
    [proc.kill()] was called.  [stats] is unbound until the first sample. *)
Record locals : Type := {
  delay : Q;
  percents : list Q;
  l_stats : option stats;
  killed : bool
}.

Definition locals0 : locals :=
  {| delay := 0%Q; percents := []; l_stats := None; killed := false |}.

(** [while p.is_running(): ...], from iteration [i] on. *)
Fixpoint poll (fuel : nat) (platform : string) (p : Process) (timeout : Z)
    (i : nat) (l : locals) : option (outcome locals) :=
  match fuel with
  | O => None
  | S fuel' =>
      if negb (is_running p i) then Some (Ok l)
      else
        match get_stats platform p i step with
        | Raise AccessDenied => Some (Ok l)
        | Raise e => Some (Raise e)
        | Ok stats =>
            let l' := {| delay := (delay l + step)%Q;
                         percents := percents l ++ [utilization stats];
                         l_stats := Some stats;
                         killed := killed l |} in
            if (0 <? timeout)%Z && Qle_bool (inject_Z (timeout + 2)) (delay l')
            then Some (Ok {| delay := delay l'; percents := percents l';
                             l_stats := l_stats l'; killed := true |})
            else poll fuel' platform p timeout (S i) l'
        end
  end.

(** Lines 185 to 189: the average of the non-zero samples, in exact
    arithmetic; the source divides in binary64, whose result can differ
    from this one in the last place. *)
Definition avg_utilization (percents : list Q) : Q :=
  let utilization := List.filter (λ p, negb (Qeq_bool p 0)) percents in
  match utilization with
  | [] => 0%Q
  | _ => (sum utilization / len utilization)%Q
  end.

(** The dictionary built by the [return] statement; reading [stats] when
    no sample was taken raises [UnboundLocalError]. *)
Definition build_result (p : Process) (l : locals) : outcome (gmap string Q) :=
  let duration := (time_end p (length (percents l)) - time_start p - 2)%Q in
  let avg_utilization := avg_utilization (percents l) in
  match l_stats l with
  | None => Raise (UnboundLocalError "stats")
  | Some stats =>
      Ok (list_to_map
        [ ("utilization", avg_utilization);
          ("duration", duration);
          ("memory", inject_Z (rss (memory stats)));
          ("user_time", user (s_cpu_times stats));
          ("system_time", system (s_cpu_times stats));
          ("cpu_time", (user (s_cpu_times stats) + system (s_cpu_times stats))%Q);
          ("fds", inject_Z (fds stats)) ])
  end.

(** [rank(value, ranges)], the inner function of [summary]. *)
Fixpoint rank_loop (i : nat) (value : Q) (rest ranges : list Q) : nat :=
  match rest with
  | [] => length ranges
  | r :: rest' => if Qltb value r then i else rank_loop (S i) value rest' ranges
  end.

Definition rank (value : Q) (ranges : list Q) : nat := rank_loop 0 value ranges ranges.

(** The body of the outer loop of [summary] for one result (printing left
    out): the dictionary [summary_result]. *)
Definition summary_result (result : gmap string Q) : gmap string nat :=
  map_imap (λ key ranges,
    if String.eqb key "colors" then None
    else match result !! key, ranges with
         | Some value, Thresholds ts => Some (rank value ts)
         | _, _ => None
         end) RANGES.

Definition summary (results : gmap string (gmap string Q)) : gmap string (gmap string nat) :=
  summary_result <$> results.

(** The loop [for k, v in result.iteritems()] of [profile]. *)
Definition store (result : gmap string Q) (results : gmap string (list Q))
    : gmap string (list Q) :=
  map_fold (λ k v results, <[k := default [] (results !! k) ++ [v]]> results)
    results result.

(** [sum(results[k])/len(results[k])]; every list in [results] has an
    element, so the division never raises. *)
Definition average (values : list Q) : Q := (sum values / len values)%Q.

(** The argument list that [run_query] gives to [subprocess.Popen]. *)
Definition argv (shell query : string) (count : Z) : list string :=
  [shell; "--query"; query; "--iterations"; pretty count; "--delay"; "1"].

Section World.
(** [sys.platform] *)
Variable platform : string.
(** [Popen n argv] is the [n]-th subprocess that the run starts, as
    psutil sees it. *)
Variable Popen : nat → list string → Process.

Definition run_query (fuel n : nat) (shell query : string) (timeout count : Z)
    : option (outcome (gmap string Q)) :=
  let p := Popen n (argv shell query count) in
  let? l := poll fuel platform p timeout 0 locals0 in
  Some (build_result p l).

(** [for i in range(rounds)], with [todo] rounds still to run. *)
Fixpoint rounds_loop (fuel n : nat) (shell query : string) (timeout count : Z)
    (todo : nat) (results : gmap string (list Q))
    : option (outcome (gmap string (list Q))) :=
  match todo with
  | O => Some (Ok results)
  | S todo' =>
      let? result := run_query fuel n shell query timeout count in
      rounds_loop fuel (S n) shell query timeout count todo' (store result results)
  end.

(** The body of the loop over the queries: the averaged results of one
    query, [n] subprocesses having been started before. *)
Definition profile_query (fuel n : nat) (shell query : string)
    (timeout count rounds : Z) : option (outcome (gmap string Q)) :=
  let? results := rounds_loop fuel n shell query timeout count (Z.to_nat rounds) ∅ in
  Some (Ok (average <$> results)).

Fixpoint profile_loop (fuel n : nat) (shell : string) (queries : list (string * string))
    (timeout count rounds : Z) (report : gmap string (gmap string Q))
    : option (outcome (gmap string (gmap string Q))) :=
  match queries with
  | [] => Some (Ok report)
  | (name, query) :: queries' =>
      let? average_results := profile_query fuel n shell query timeout count rounds in
      profile_loop fuel (n + Z.to_nat rounds) shell queries' timeout count rounds
        (<[name := average_results]> report)
  end.

Definition profile (fuel : nat) (shell : string) (queries : list (string * string))
    (timeout count rounds : Z) : option (outcome (gmap string (gmap string Q))) :=
  profile_loop fuel 0 shell queries timeout count rounds ∅.
End World.

End Profile.

(** ** Processes for the examples *)

Module Scenario.
Import Psutil.

(** A process that gives the utilizations [samples], one per poll, and
    has exited when they are used up. *)
Definition sampled (samples : list Q) : Process :=
  {| is_running i := i <? length samples;
     cpu_percent i _ := Ok (nth i samples 0%Q);
     io_counters _ := Ok [];
     num_fds _ := Ok 5%Z;
     cpu_times i := Ok {| user := Z.of_nat (S i) # 10; system := Z.of_nat (S i) # 20 |};
     memory_info_ex _ := Ok {| rss := 4096; vms := 8192 |};
     time_start := 100%Q;
     time_end k := (103 + (Z.of_nat k # 2))%Q |}.

(** A process that has exited before the first poll. *)
Definition exited : Process := sampled [].

(** A running process that psutil may not inspect. *)
Definition denied : Process :=
  {| is_running _ := true;
     cpu_percent _ _ := Raise AccessDenied;
     io_counters _ := Raise AccessDenied;
     num_fds _ := Raise AccessDenied;
     cpu_times _ := Raise AccessDenied;
     memory_info_ex _ := Raise AccessDenied;
     time_start := 100%Q;
     time_end _ := 103%Q |}.

(** A process that never exits. *)
Definition forever : Process :=
  {| is_running _ := true;
     cpu_percent _ _ := Ok 25%Q;
     io_counters _ := Ok [];
     num_fds _ := Ok 5%Z;
     cpu_times i := Ok {| user := Z.of_nat (S i) # 10; system := Z.of_nat (S i) # 20 |};
     memory_info_ex _ := Ok {| rss := 4096; vms := 8192 |};
     time_start := 100%Q;
     time_end k := (102 + (Z.of_nat k # 2))%Q |}.

End Scenario.

(** ** The vocabulary of the specification *)

(** Notions that the properties below are stated with.  They are written
    down independently of the code. *)
Module Spec.

(** [key] occurs in [s] as a substring. *)
Definition contains (key s : string) : Prop := ∃ a b, s = a +:+ key +:+ b.

(** [s] neither starts nor ends with a white-space character. *)
Definition no_space_at_start (s : string) : Prop :=
  match s with EmptyString => True | String c _ => Str.isspace c = false end.
Definition no_space_at_end (s : string) : Prop :=
  ∀ t c, s = t +:+ String c EmptyString → Str.isspace c = false.

(** [v] is [s] with the white space at both ends removed. *)
Definition trimmed (s v : string) : Prop :=
  (∃ l r, s = l +:+ v +:+ r ∧ Str.all_space l = true ∧ Str.all_space r = true)
  ∧ no_space_at_start v ∧ no_space_at_end v.

(** [line] mentions one of the tokens of the leak summary. *)
Definition mentions_token (line : string) : Prop :=
  ∃ key, key ∈ Leaks.keys ∧ contains key line.

(** The text after the first colon of [s], if [s] has a colon. *)
Fixpoint after_first_colon (s : string) : option string :=
  match s with
  | EmptyString => None
  | String c s' => if Ascii.eqb c colon then Some s' else after_first_colon s'
  end.

#[global] Instance Qeq_decision (x y : Q) : Decision (x == y)%Q := Qeq_dec x y.

(** The samples that are not zero, in the order they were taken. *)
Definition nonzero (samples : list Q) : list Q :=
  filter (λ x, ¬ (x == 0)%Q) samples.

(** The arithmetic mean of a non-empty list. *)
Definition mean (l : list Q) : Q :=
  (fold_right Qplus 0 l / inject_Z (Z.of_nat (length l)))%Q.

(** [r] is the smallest index at which [value] is strictly below the
    threshold, or the number of thresholds when there is no such index. *)
Definition first_below (value : Q) (ts : list Q) (r : nat) : Prop :=
  r ≤ length ts
  ∧ (∀ j t, j < r → ts !! j = Some t → (t <= value)%Q)
  ∧ (∀ t, ts !! r = Some t → (value < t)%Q).

(** The keys of the dictionary that run_query returns. *)
Definition result_fields : list string :=
  ["utilization"; "duration"; "memory"; "user_time"; "system_time"; "cpu_time"; "fds"].

(** The metrics that the classifier ranks. *)
Definition metrics : list string :=
  ["utilization"; "cpu_time"; "memory"; "fds"; "duration"].

(** The number of polls after which a run with a positive timeout has
    accumulated a delay of [timeout + 2], at half a second per poll. *)
Definition polls_until_kill (timeout : Z) : nat := Z.to_nat (2 * (timeout + 2)).

End Spec.

(** ** More string methods *)

Module StrExt.

(** [s[n:]] *)
Fixpoint drop (n : nat) (s : string) : string :=
  match n, s with
  | O, _ => s
  | S _, EmptyString => EmptyString
  | S n', String _ s' => drop n' s'
  end.

(** [s.split(sep, 1)] for a non-empty [sep]: a list of one or two pieces,
    given as the first piece and, when [sep] occurs, the rest. *)
Fixpoint split1 (sep s : string) : string * option string :=
  if Str.startswith sep s then (EmptyString, Some (drop (String.length sep) s))
  else match s with
       | EmptyString => (EmptyString, None)
       | String c s' => let (piece, rest) := split1 sep s' in (String c piece, rest)
       end.

(** [os.path.basename(path)]: the text after the last slash. *)
Fixpoint basename (path : string) : string :=
  match path with
  | EmptyString => EmptyString
  | String c path' =>
      if Str.has_char "/" path' then basename path'
      else if Ascii.eqb c "/" then path' else path
  end.

(** The number of occurrences of [c] in [s]. *)
Fixpoint count_char (c : ascii) (s : string) : nat :=
  match s with
  | EmptyString => 0
  | String d s' => (if Ascii.eqb d c then 1 else 0) + count_char c s'
  end.

End StrExt.

(** ** check_leaks_darwin, check_leaks *)

Module LeaksDarwin.

(** The [try] statement of [check_leaks_darwin] on one output of the leaks
    tool.  [stdout.split("\n")] is inside the [try]: when the output is not
    ASCII the decoding raises, the bare [except] swallows it, no line is
    scanned and [leak_checks] is left as it was. *)
Definition scan_output (stdout : string) (leak_checks : option string) : option string :=
  match decode_ascii stdout with
  | Ok text => Leaks.scan_darwin (Str.split linefeed text) leak_checks
  | Raise _ => leak_checks
  end.

Section World.
(** [alive i]: [proc.poll() is None] at the [i]-th test of the loop;
    [leaks_stdout i]: what the [i]-th run of the leaks tool prints. *)
Variable alive : nat → bool.
Variable leaks_stdout : nat → string.

(** [while proc.poll() is None: ...], from iteration [i] on. *)
Fixpoint loop (fuel i : nat) (leak_checks : option string) : option (option string) :=
  match fuel with
  | O => None
  | S fuel' =>
      if alive i
      then loop fuel' (S i) (scan_output (leaks_stdout i) leak_checks)
      else Some leak_checks
  end.

Definition check_leaks_darwin (fuel : nat) : option (gmap string (option string)) :=
  leak_checks ← loop fuel 0 None;
  Some {["definitely" := leak_checks]}.

(** [check_leaks]: the platform picks the variant; [n] numbers the
    subprocess for the valgrind variant. *)
Definition check_leaks (platform : string) (communicate : nat → string → string * string)
    (fuel n : nat) (shell query : string) (supp_file : option string)
    : option (outcome (gmap string (option string))) :=
  if String.eqb platform "darwin"
  then summary ← check_leaks_darwin fuel; Some (Ok summary)
  else Some (Leaks.check_leaks_linux communicate n shell query supp_file).
End World.

End LeaksDarwin.

(** ** queries_from_config, queries_from_tables, the main block *)

Module Discovery.

(** What ends the script outside the profiling functions: [exit(code)], a
    missing dictionary key, [open(None)], or an exception of the functions
    above. *)
Inductive stop : Type :=
  | SystemExit (code : Z)
  | KeyError (key : string)
  | TypeError
  | Uncaught (e : exn).

(** The loop of [queries_from_config] over [config["scheduledQueries"]].
    The entries are dictionaries from strings to strings; the right-hand
    side [query["query"]] is evaluated before the subscript [query["name"]]. *)
Fixpoint config_loop (scheduled : list (gmap string string))
    (queries : gmap string string) : stop + gmap string string :=
  match scheduled with
  | [] => inr queries
  | query :: scheduled' =>
      match query !! "query" with
      | None => inl (KeyError "query")
      | Some text =>
          match query !! "name" with
          | None => inl (KeyError "name")
          | Some name => config_loop scheduled' (<[name := text]> queries)
          end
      end
  end.

(** [restrict_tables = [t.strip() for t in restrict.split(",")]]; the split
    decodes [restrict]. *)
Definition restrict_tables (restrict : string) : outcome (list string) :=
  let! text := decode_ascii restrict in
  Ok (Str.strip <$> Str.split "," text).

(** The loop [for spec in files] under one directory: the tables it
    appends.  [spec.split(".table", 1)] decodes the file name, for every
    file; the format ["%s.%s"] decodes the directory name. *)
Fixpoint tables_of_files (platform base : string) (files : list string)
    : outcome (list string) :=
  match files with
  | [] => Ok []
  | spec :: files' =>
      let spec_platform := StrExt.basename base in
      let! text := decode_ascii spec in
      let table_name := fst (StrExt.split1 ".table" text) in
      if bool_decide (spec_platform ∈ ["x"; platform]) then
        let! dir := decode_ascii spec_platform in
        let! rest := tables_of_files platform base files' in
        Ok ((dir +:+ "." +:+ table_name) :: rest)
      else tables_of_files platform base files'
  end.

(** The loop over [os.walk(path)]: the list [tables]. *)
Fixpoint tables_of_walk (platform : string)
    (walk : list (string * list string * list string)) : outcome (list string) :=
  match walk with
  | [] => Ok []
  | (base, _folders, files) :: walk' =>
      let! here := tables_of_files platform base files in
      let! rest := tables_of_walk platform walk' in
      Ok (here ++ rest)
  end.

(** [[t for t in tables if t.split(".")[1] not in restrict_tables]] *)
Fixpoint filter_tables (restrict_tables tables : list string) : outcome (list string) :=
  match tables with
  | [] => Ok []
  | t :: tables' =>
      match Str.split "." t !! 1 with
      | None => Raise IndexError
      | Some name =>
          let! rest := filter_tables restrict_tables tables' in
          Ok (if bool_decide (name ∈ restrict_tables) then rest else t :: rest)
      end
  end.

(** [for table in tables: queries[table] = "SELECT * FROM %s;" % ...] *)
Fixpoint build_queries (tables : list string) (queries : gmap string string)
    : outcome (gmap string string) :=
  match tables with
  | [] => Ok queries
  | table :: tables' =>
      match snd (StrExt.split1 "." table) with
      | None => Raise IndexError
      | Some name =>
          build_queries tables' (<[table := "SELECT * FROM " +:+ name +:+ ";"]> queries)
      end
  end.

(** [queries_from_tables], on the result [walk] of [os.walk(path)] for a
    byte-string [path]. *)
Definition queries_from_tables (platform : string)
    (walk : list (string * list string * list string)) (restrict : string)
    : outcome (gmap string string) :=
  let! restrict_tables := restrict_tables restrict in
  let! tables := tables_of_walk platform walk in
  let! tables := filter_tables restrict_tables tables in
  build_queries tables ∅.

(** The command-line arguments that the main block reads. *)
Record args : Type := {
  a_restrict : string;
  a_tables : string;
  a_config : option string;
  a_output : option string;
  a_summary : bool;
  a_query : option string;
  a_shell : string
}.

(** What a run writes: the statistics or their summary. *)
Inductive document : Type :=
  | Stats (results : gmap string (gmap string Q))
  | Summary (ranks : gmap string (gmap string nat)).

Section World.
(** [os.path.exists] *)
Variable path_exists : string → bool.
(** Reading and parsing the configuration file: [None] when that fails,
    otherwise the value under ["scheduledQueries"], if the key is there. *)
Variable load_config : string → option (option (list (gmap string string))).
(** [os.walk] *)
Variable os_walk : string → list (string * list string * list string).
(** [platform], after ["linux2"] was renamed *)
Variable platform : string.

Definition queries_from_config (config_path : string) : stop + gmap string string :=
  match load_config config_path with
  | None => inl (SystemExit 1)
  | Some None => inl (SystemExit 0)
  | Some (Some scheduled) => config_loop scheduled ∅
  end.

(** Lines 278 to 294 of the main block: the checks of the paths and the
    choice of the queries. *)
Definition discover (a : args) : stop + gmap string string :=
  if negb (path_exists (a_shell a)) then inl (SystemExit 1)
  else if bool_decide (a_config a = None) && negb (path_exists (a_tables a))
  then inl (SystemExit 1)
  else
    match a_config a with
    | Some config =>
        if negb (path_exists config) then inl (SystemExit 1)
        else queries_from_config config
    | None =>
        match a_query a with
        | Some query => inr (<["manual" := query]> ∅)
        | None =>
            match queries_from_tables platform (os_walk (a_tables a)) (a_restrict a) with
            | Ok queries => inr queries
            | Raise e => inl (Uncaught e)
            end
        end
    end.
End World.

(** Lines 305 to 310 of the main block: the files written, with what.
    [open(None, "w")] raises [TypeError]. *)
Definition write_outputs (a : args) (results : gmap string (gmap string Q))
    : stop + list (string * document) :=
  let written :=
    match a_output a with
    | Some output => if negb (a_summary a) then [(output, Stats results)] else []
    | None => []
    end in
  if a_summary a then
    match a_output a with
    | None => inl TypeError
    | Some output => inr (written ++ [(output, Summary (Profile.summary results))])
    end
  else inr written.

End Discovery.

(** ** More processes for the examples *)

Module MoreScenarios.
Import Psutil.

(** A process that psutil no longer finds from poll [k] on, although it
    still counts as running. *)
Definition vanishing (k : nat) : Process :=
  {| is_running _ := true;
     cpu_percent i _ := if i <? k then Ok 25%Q else Raise NoSuchProcess;
     io_counters _ := Ok [];
     num_fds _ := Ok 5%Z;
     cpu_times i := Ok {| user := Z.of_nat (S i) # 10; system := Z.of_nat (S i) # 20 |};
     memory_info_ex _ := Ok {| rss := 4096; vms := 8192 |};
     time_start := 100%Q;
     time_end k := (102 + (Z.of_nat k # 2))%Q |}.

(** A process whose I/O counters cannot be read. *)
Definition no_io_counters : Process :=
  {| is_running i := i <? 2;
     cpu_percent _ _ := Ok 25%Q;
     io_counters _ := Raise AccessDenied;
     num_fds _ := Ok 5%Z;
     cpu_times i := Ok {| user := Z.of_nat (S i) # 10; system := Z.of_nat (S i) # 20 |};
     memory_info_ex _ := Ok {| rss := 4096; vms := 8192 |};
     time_start := 100%Q;
     time_end k := (102 + (Z.of_nat k # 2))%Q |}.

End MoreScenarios.

(** ** More vocabulary *)

Module Notions.

(** [key] occurs in [s] at position [i]. *)
Definition occurs_at (key s : string) (i : nat) : Prop :=
  ∃ a b, s = a +:+ key +:+ b ∧ String.length a = i.

(** The thresholds grow strictly from left to right. *)
Fixpoint ascending (ts : list Q) : Prop :=
  match ts with
  | [] => True
  | t :: ts' => match ts' with [] => True | t' :: _ => (t < t')%Q end ∧ ascending ts'
  end.

(** The number of thresholds that are at most [value]. *)
Definition passed (value : Q) (ts : list Q) : nat :=
  length (List.filter (λ t, Qle_bool t value) ts).

(** An entry of the scheduled queries that has both keys. *)
Definition complete (q : gmap string string) : Prop :=
  is_Some (q !! "name") ∧ is_Some (q !! "query").

End Notions.

(** * Properties *)

(** ** Strings *)

Module StrFacts.
Import Str Spec.

Lemma app_assoc (a b c : string) : (a +:+ b) +:+ c = a +:+ b +:+ c.
Proof. induction a as [|x a IH]; simpl; [reflexivity | now rewrite IH]. Qed.

Lemma app_empty_r (a : string) : a +:+ EmptyString = a.
Proof. induction a as [|x a IH]; simpl; [reflexivity | now rewrite IH]. Qed.

Lemma startswith_app (key b : string) : startswith key (key +:+ b) = true.
Proof.
  induction key as [|c key IH]; simpl; [reflexivity|].
  now rewrite Ascii.eqb_refl, IH.
Qed.

Lemma startswith_inv (key s : string) :
  startswith key s = true → ∃ b, s = key +:+ b.
Proof.
  revert s. induction key as [|c key IH]; intros s H.
  - now exists s.
  - destruct s as [|d s]; simpl in H; [discriminate|].
    apply andb_true_iff in H as [Hc Hs]. apply Ascii.eqb_eq in Hc as ->.
    destruct (IH _ Hs) as [b ->]. now exists b.
Qed.

Lemma find_from_range (key s : string) (i : Z) :
  find_from i key s = (-1)%Z ∨ (i <= find_from i key s)%Z.
Proof.
  revert i. induction s as [|c s IH]; intros i; simpl.
  - destruct (startswith key EmptyString); [right; lia | now left].
  - destruct (startswith key (String c s)); [right; lia|].
    destruct (IH (i + 1)%Z) as [->|H]; [now left | right; lia].
Qed.

Lemma find_from_contains (key s : string) (i : Z) :
  (0 <= i)%Z → (0 <= find_from i key s)%Z ↔ contains key s.
Proof.
  revert i. induction s as [|c s IH]; intros i Hi; simpl.
  - destruct (startswith key EmptyString) eqn:E.
    + split; [intros _ | lia].
      apply startswith_inv in E as [b ->]. now exists EmptyString, b.
    + split; [lia|]. intros (a & b & H).
      destruct a; simpl in H; [|discriminate].
      rewrite H, startswith_app in E. discriminate.
  - destruct (startswith key (String c s)) eqn:E.
    + split; [intros _ | lia].
      apply startswith_inv in E as [b ->]. now exists EmptyString, b.
    + rewrite (IH (i + 1)%Z) by lia. split.
      * intros (a & b & ->). now exists (String c a), b.
      * intros (a & b & H). destruct a as [|d a]; simpl in H.
        -- rewrite H, startswith_app in E. discriminate.
        -- injection H as _ ->. now exists a, b.
Qed.

(** [line.find(key) >= 0] is the test "key occurs in line". *)
Lemma find_contains (s key : string) :
  (find s key >=? 0)%Z = true ↔ contains key s.
Proof.
  unfold find. rewrite <- (find_from_contains key s 0) by lia.
  apply Z.geb_le.
Qed.

Lemma find_not_contains (s key : string) :
  (find s key >=? 0)%Z = false ↔ ¬ contains key s.
Proof.
  rewrite <- find_contains. now destruct (find s key >=? 0)%Z.
Qed.

(** *** split *)

Lemma split_cons (sep : ascii) (s : string) :
  ∃ piece rest, split sep s = piece :: rest.
Proof.
  induction s as [|c s (piece & rest & IH)]; simpl; [now eexists _, _|].
  destruct (Ascii.eqb c sep); [now eexists _, _|].
  rewrite IH. now eexists _, _.
Qed.

Lemma split_no_sep (sep : ascii) (s : string) :
  has_char sep s = false → split sep s = [s].
Proof.
  induction s as [|c s IH]; simpl; [reflexivity|].
  intros [Hc Hs]%orb_false_iff. rewrite Hc, (IH Hs). reflexivity.
Qed.

Lemma split_app_sep (sep : ascii) (a b : string) :
  has_char sep a = false →
  split sep (a +:+ String sep b) = a :: split sep b.
Proof.
  induction a as [|c a IH]; simpl.
  - intros _. now rewrite Ascii.eqb_refl.
  - intros [Hc Ha]%orb_false_iff. rewrite Hc, (IH Ha). reflexivity.
Qed.

(** The second piece of a split is the text between the first separator
    and the next one, or the end of the string when there is no next one. *)
Lemma split_second (sep : ascii) (a b t : string) :
  has_char sep a = false → has_char sep b = false →
  t = EmptyString ∨ (∃ t', t = String sep t') →
  split sep (a +:+ String sep (b +:+ t)) !! 1%nat = Some b.
Proof.
  intros Ha Hb Ht. rewrite (split_app_sep _ _ _ Ha). simpl.
  destruct Ht as [->|[t' ->]].
  - now rewrite app_empty_r, (split_no_sep _ _ Hb).
  - now rewrite (split_app_sep _ _ _ Hb).
Qed.

Lemma split_second_is_Some (sep : ascii) (s : string) :
  has_char sep s = true → is_Some (split sep s !! 1%nat).
Proof.
  induction s as [|c s IH]; simpl; [discriminate|].
  destruct (Ascii.eqb c sep); simpl.
  - intros _. destruct (split_cons sep s) as (piece & rest & ->). now eexists.
  - intros Hs. destruct (split_cons sep s) as (piece & rest & E).
    specialize (IH Hs). rewrite E in IH |- *. exact IH.
Qed.

Lemma split_second_is_None (sep : ascii) (s : string) :
  has_char sep s = false → split sep s !! 1%nat = None.
Proof. intros H. now rewrite (split_no_sep _ _ H). Qed.

(** *** strip *)

Lemma lstrip_spec (s : string) :
  ∃ l, s = l +:+ lstrip s ∧ all_space l = true ∧ no_space_at_start (lstrip s).
Proof.
  induction s as [|c s (l & Hs & Hl & Hstart)]; simpl.
  - now exists EmptyString.
  - destruct (isspace c) eqn:Hc.
    + exists (String c l). simpl. rewrite Hc, Hl. now rewrite <- Hs.
    + exists EmptyString. simpl. auto.
Qed.

Lemma no_space_at_end_empty : no_space_at_end EmptyString.
Proof. intros [|d t] c H; discriminate. Qed.

Lemma no_space_at_end_cons (c : ascii) (s : string) :
  s ≠ EmptyString → no_space_at_end s → no_space_at_end (String c s).
Proof.
  intros Hne Hs [|d t] c' H; simpl in H.
  - injection H as _ H. now subst s.
  - injection H as _ H. exact (Hs _ _ H).
Qed.

Lemma no_space_at_end_single (c : ascii) :
  isspace c = false → no_space_at_end (String c EmptyString).
Proof.
  intros Hc [|d t] c' H; simpl in H.
  - now injection H as <-.
  - injection H as _ H. destruct t; discriminate.
Qed.

Lemma rstrip_spec (s : string) :
  ∃ r, s = rstrip s +:+ r ∧ all_space r = true ∧ no_space_at_end (rstrip s).
Proof.
  induction s as [|c s (r & Hs & Hr & Hend)]; simpl.
  - exists EmptyString. auto using no_space_at_end_empty.
  - destruct (rstrip s) as [|d u] eqn:E.
    + simpl in Hs. subst r. destruct (isspace c) eqn:Hc.
      * exists (String c s). simpl. rewrite Hc, Hr.
        auto using no_space_at_end_empty.
      * exists s. simpl. auto using no_space_at_end_single.
    + exists r. simpl. rewrite Hs at 1. simpl.
      split; [reflexivity|]. split; [assumption|].
      now apply no_space_at_end_cons.
Qed.

Lemma rstrip_keeps_start (s : string) :
  no_space_at_start s → no_space_at_start (rstrip s).
Proof.
  destruct s as [|c s]; simpl; [trivial|]. intros Hc.
  destruct (rstrip s); [rewrite Hc|]; exact Hc.
Qed.

(** [strip] removes exactly the white space at the two ends. *)
Lemma strip_trimmed (s : string) : trimmed s (strip s).
Proof.
  unfold strip.
  destruct (lstrip_spec s) as (l & Hs & Hl & Hstart).
  destruct (rstrip_spec (lstrip s)) as (r & Hm & Hr & Hend).
  split; [|split].
  - exists l, r. now rewrite <- Hm.
  - now apply rstrip_keeps_start.
  - exact Hend.
Qed.

End StrFacts.

(** ** The scanner of check_leaks_linux *)

Module LeaksFacts.
Import Str Spec StrFacts Leaks.

Lemma field_Ok_iff (line : string) :
  (∃ v, field line = Ok v) ↔ has_char colon line = true.
Proof.
  unfold field. split.
  - intros [v H]. destruct (has_char colon line) eqn:E; [reflexivity|].
    now rewrite (split_second_is_None _ _ E) in H.
  - intros [piece ->]%split_second_is_Some. now eexists.
Qed.

Lemma field_result (line : string) :
  (∃ v, field line = Ok v) ∨ field line = Raise IndexError.
Proof. unfold field. destruct (_ !! _); [left; now eexists | now right]. Qed.

Lemma scan_keys_lookup ks line (s s' : gmap string (option string)) k :
  scan_keys ks line s = Ok s' →
  s' !! k =
    if bool_decide (k ∈ ks) && (find line k >=? 0)%Z
    then match field line with Ok v => Some (Some v) | _ => s !! k end
    else s !! k.
Proof.
  revert s. induction ks as [|key ks IH]; intros s; simpl.
  - intros [= ->]. reflexivity.
  - destruct (find line key >=? 0)%Z eqn:Hkey.
    + destruct (field line) as [v|] eqn:Hf; simpl; try discriminate.
      intros H. rewrite (IH _ H). destruct (decide (k = key)) as [->|Hne].
      * rewrite Hkey, lookup_insert_eq, andb_true_r.
        rewrite (bool_decide_eq_true_2 (key ∈ key :: ks)) by apply list_elem_of_here.
        now destruct (bool_decide (key ∈ ks)).
      * rewrite lookup_insert_ne by congruence.
        rewrite (bool_decide_ext (k ∈ key :: ks) (k ∈ ks)); [reflexivity|].
        rewrite elem_of_cons. intuition congruence.
    + intros H. rewrite (IH _ H). destruct (decide (k = key)) as [->|Hne].
      * now rewrite Hkey, !andb_false_r.
      * rewrite (bool_decide_ext (k ∈ key :: ks) (k ∈ ks)); [reflexivity|].
        rewrite elem_of_cons. intuition congruence.
Qed.

(** A line is scanned without an exception when it has a colon, or when it
    mentions none of the keys. *)
Lemma scan_keys_Ok ks line (s : gmap string (option string)) :
  has_char colon line = true ∨ (∀ k, k ∈ ks → ¬ contains k line) →
  ∃ s', scan_keys ks line s = Ok s'.
Proof.
  revert s. induction ks as [|key ks IH]; intros s H; simpl; [now eexists|].
  destruct (find line key >=? 0)%Z eqn:Hkey.
  - destruct H as [H|H].
    + apply field_Ok_iff in H as Hv. destruct Hv as [v ->]. simpl. apply IH. now left.
    + apply find_contains in Hkey. destruct (H key); [apply list_elem_of_here | assumption].
  - apply IH. destruct H as [H|H]; [now left | right].
    intros k Hk. apply H. now apply list_elem_of_further.
Qed.

(** The only exception the scanner raises is [IndexError]. *)
Lemma scan_keys_result ks line (s : gmap string (option string)) :
  (∃ s', scan_keys ks line s = Ok s') ∨ scan_keys ks line s = Raise IndexError.
Proof.
  revert s. induction ks as [|key ks IH]; intros s; simpl; [left; now eexists|].
  destruct (find line key >=? 0)%Z; [|apply IH].
  destruct (field_result line) as [[v ->]| ->]; simpl; [apply IH | now right].
Qed.

Lemma scan_keys_Raise ks line (s : gmap string (option string)) key :
  key ∈ ks → contains key line → has_char colon line = false →
  scan_keys ks line s = Raise IndexError.
Proof.
  intros Hin Hc Hcolon. apply find_contains in Hc.
  assert (Hf : field line = Raise IndexError).
  { destruct (field_result line) as [Hv|Hr]; [|exact Hr].
    apply field_Ok_iff in Hv. congruence. }
  revert s. induction Hin as [key ks|key k' ks Hin IH]; intros s; simpl.
  - now rewrite Hc, Hf.
  - destruct (find line k' >=? 0)%Z; [now rewrite Hf | now apply IH].
Qed.

Lemma scan_lines_Ok lines (s : gmap string (option string)) :
  (∀ line, line ∈ lines → mentions_token line → has_char colon line = true) →
  ∃ s', scan_lines lines s = Ok s'.
Proof.
  revert s. induction lines as [|line lines IH]; intros s H; cbn [scan_lines]; [now eexists|].
  destruct (scan_keys_Ok keys line s) as [s1 ->].
  - destruct (has_char colon line) eqn:E; [now left | right].
    intros k Hk Hc. rewrite H in E; [discriminate | apply list_elem_of_here | now exists k].
  - cbn [bind]. apply IH. intros l Hl. apply H. now apply list_elem_of_further.
Qed.

Lemma scan_lines_Raise lines (s : gmap string (option string)) line :
  line ∈ lines → mentions_token line → has_char colon line = false →
  scan_lines lines s = Raise IndexError.
Proof.
  intros Hin (key & Hkey & Hc) Hcolon. revert s.
  induction Hin as [line lines|line l' lines Hin IH]; intros s; cbn [scan_lines app].
  - now rewrite (scan_keys_Raise _ _ _ key).
  - destruct (scan_keys_result keys l' s) as [[s' ->]| ->]; cbn [bind]; [apply IH; assumption | reflexivity].
Qed.

Lemma scan_lines_untouched lines (s s' : gmap string (option string)) key :
  scan_lines lines s = Ok s' →
  (∀ line, line ∈ lines → ¬ contains key line) →
  s' !! key = s !! key.
Proof.
  revert s. induction lines as [|line lines IH]; intros s; cbn [scan_lines app].
  - now intros [= ->].
  - destruct (scan_keys keys line s) as [s1|] eqn:E; cbn [bind]; try discriminate.
    intros H Hno. rewrite (IH _ H) by (intros l Hl; apply Hno; now apply list_elem_of_further).
    rewrite (scan_keys_lookup _ _ _ _ key E).
    assert ((find line key >=? 0)%Z = false) as ->.
    { apply find_not_contains, Hno, list_elem_of_here. }
    now rewrite andb_false_r.
Qed.

Lemma scan_lines_last pre line post (s s' : gmap string (option string)) key :
  scan_lines (pre ++ line :: post) s = Ok s' →
  key ∈ keys → contains key line →
  (∀ l, l ∈ post → ¬ contains key l) →
  ∃ v, field line = Ok v ∧ s' !! key = Some (Some v).
Proof.
  revert s. induction pre as [|l0 pre IH]; intros s; cbn [scan_lines app].
  - destruct (scan_keys keys line s) as [s1|] eqn:E; cbn [bind]; try discriminate.
    intros H Hkey Hc Hpost. rewrite (scan_lines_untouched _ _ _ _ H Hpost).
    rewrite (scan_keys_lookup _ _ _ _ key E).
    rewrite bool_decide_eq_true_2 by assumption.
    pose proof Hc as Hfind. apply find_contains in Hfind as ->. cbn [andb].
    destruct (field_result line) as [[v Hv]|Hr].
    + rewrite Hv. now exists v.
    + assert (has_char colon line = false).
      { destruct (has_char colon line) eqn:Hcol; [|reflexivity].
        apply field_Ok_iff in Hcol as [v Hv]. congruence. }
      rewrite (scan_keys_Raise _ _ _ key) in E; [discriminate|assumption..].
  - destruct (scan_keys keys l0 s) as [s1|]; cbn [bind]; try discriminate. apply IH.
Qed.

(** The parser decodes the output before it splits it. *)
Lemma parse_stderr_ascii (stderr : string) :
  is_ascii stderr = true →
  parse_stderr stderr = scan_lines (split linefeed stderr) summary0.
Proof. intros H. unfold parse_stderr, decode_ascii. now rewrite H. Qed.

Lemma parse_stderr_Ok (stderr : string) (summary : gmap string (option string)) :
  parse_stderr stderr = Ok summary →
  is_ascii stderr = true ∧ scan_lines (split linefeed stderr) summary0 = Ok summary.
Proof.
  unfold parse_stderr, decode_ascii. destruct (is_ascii stderr); [|discriminate].
  now split.
Qed.

Lemma parse_stderr_not_ascii (stderr : string) :
  is_ascii stderr = false → parse_stderr stderr = Raise UnicodeDecodeError.
Proof. intros H. unfold parse_stderr, decode_ascii. now rewrite H. Qed.

End LeaksFacts.

(** ** The classifier *)

Module RankFacts.
Import Profile Spec.

Lemma Qltb_lt (x y : Q) : Qltb x y = true ↔ (x < y)%Q.
Proof. unfold Qltb, Qlt. apply Z.ltb_lt. Qed.

Lemma Qltb_ge (x y : Q) : Qltb x y = false ↔ (y <= x)%Q.
Proof. unfold Qltb, Qle. apply Z.ltb_ge. Qed.

(** The loop of [rank], having passed the thresholds [seen], all of them
    at most [value]. *)
Lemma rank_loop_first_below (value : Q) (rest seen ranges : list Q) :
  ranges = seen ++ rest →
  (∀ t, t ∈ seen → (t <= value)%Q) →
  first_below value ranges (rank_loop (length seen) value rest ranges).
Proof.
  revert seen. induction rest as [|r rest IH]; intros seen Hranges Hseen; simpl.
  - rewrite app_nil_r in Hranges. subst seen. split; [lia|]. split.
    + intros j t _ Hj. apply Hseen. apply list_elem_of_lookup. now exists j.
    + intros t Ht. apply lookup_lt_Some in Ht. lia.
  - destruct (Qltb value r) eqn:E.
    + subst ranges. split; [rewrite length_app; simpl; lia|]. split.
      * intros j t Hj Ht. apply Hseen. rewrite lookup_app_l in Ht by exact Hj.
        apply list_elem_of_lookup. now exists j.
      * intros t Ht. rewrite list_lookup_middle in Ht by reflexivity.
        injection Ht as <-. now apply Qltb_lt.
    + specialize (IH (seen ++ [r])). rewrite length_app in IH. simpl in IH.
      replace (length seen + 1) with (S (length seen)) in IH by lia.
      apply IH.
      * now rewrite <- app_assoc.
      * intros t [Ht|Ht%list_elem_of_singleton]%elem_of_app; [now apply Hseen|].
        subst t. now apply Qltb_ge.
Qed.

Lemma rank_first_below (value : Q) (ranges : list Q) :
  first_below value ranges (rank value ranges).
Proof.
  apply (rank_loop_first_below value ranges [] ranges); [reflexivity|].
  intros t Ht. inversion Ht.
Qed.

(** The specification determines the rank. *)
Lemma first_below_unique (value : Q) (ts : list Q) (r1 r2 : nat) :
  first_below value ts r1 → first_below value ts r2 → r1 = r2.
Proof.
  intros (Hlen1 & Hbefore1 & Hat1) (Hlen2 & Hbefore2 & Hat2).
  destruct (Nat.lt_trichotomy r1 r2) as [Hlt|[->|Hlt]]; [|reflexivity|].
  - destruct (lookup_lt_is_Some_2 ts r1) as [t Ht]; [lia|].
    pose proof (Hat1 t Ht). pose proof (Hbefore2 r1 t Hlt Ht).
    exfalso. eapply Qlt_irrefl, Qlt_le_trans; eassumption.
  - destruct (lookup_lt_is_Some_2 ts r2) as [t Ht]; [lia|].
    pose proof (Hat2 t Ht). pose proof (Hbefore1 r2 t Hlt Ht).
    exfalso. eapply Qlt_irrefl, Qlt_le_trans; eassumption.
Qed.

Lemma rank_mono (x y : Q) (ranges : list Q) :
  (x <= y)%Q → rank x ranges ≤ rank y ranges.
Proof.
  intros Hxy.
  destruct (rank_first_below x ranges) as (Hlenx & Hbeforex & Hatx).
  destruct (rank_first_below y ranges) as (Hleny & Hbeforey & Haty).
  destruct (Nat.le_gt_cases (rank x ranges) (rank y ranges)) as [Hle|Hgt]; [exact Hle|].
  destruct (lookup_lt_is_Some_2 ranges (rank y ranges)) as [t Ht]; [lia|].
  pose proof (Haty t Ht) as Hy. pose proof (Hbeforex _ t Hgt Ht) as Hx.
  exfalso. apply (Qlt_irrefl y).
  eapply Qlt_le_trans; [exact Hy|]. eapply Qle_trans; eassumption.
Qed.

(** The entry that [summary] writes for a key of [RANGES]. *)
Lemma summary_result_lookup (result : gmap string Q) (key : string) :
  summary_result result !! key =
    ranges ← RANGES !! key;
    if String.eqb key "colors" then None
    else match result !! key, ranges with
         | Some value, Thresholds ts => Some (rank value ts)
         | _, _ => None
         end.
Proof. unfold summary_result. now rewrite map_lookup_imap. Qed.

Lemma metric_thresholds (metric : string) :
  metric ∈ metrics →
  String.eqb metric "colors" = false ∧ ∃ ts, RANGES !! metric = Some (Thresholds ts).
Proof.
  unfold metrics. rewrite !elem_of_cons, elem_of_nil.
  intros [->|[->|[->|[->|[->|[]]]]]]; (split; [reflexivity | eexists; reflexivity]).
Qed.

End RankFacts.

(** ** The polling loop of run_query *)

Module PollFacts.
Import Psutil Profile Spec.

Lemma get_stats_utilization platform p i interval stats :
  get_stats platform p i interval = Ok stats →
  cpu_percent p i interval = Ok (utilization stats).
Proof.
  unfold get_stats. destruct (cpu_percent p i interval) as [u|e]; simpl; [|discriminate].
  destruct (if String.eqb platform "darwin" then _ else _) as [c|]; simpl; [|discriminate].
  destruct (num_fds p i); simpl; [|discriminate].
  destruct (cpu_times p i); simpl; [|discriminate].
  destruct (memory_info_ex p i); simpl; [|discriminate].
  now intros [= <-].
Qed.

Lemma half_succ (i : nat) : (Z.of_nat i # 2) + step == Z.of_nat (S i) # 2.
Proof. unfold step, Qeq, Qplus. simpl. lia. Qed.

Lemma deadline_le_half (timeout : Z) (k : nat) :
  (inject_Z (timeout + 2) <= Z.of_nat k # 2)%Q ↔ (2 * (timeout + 2) <= Z.of_nat k)%Z.
Proof. unfold Qle. simpl. lia. Qed.

Lemma half_le_deadline (timeout : Z) (k : nat) :
  (Z.of_nat k # 2 <= inject_Z (timeout + 2))%Q ↔ (Z.of_nat k <= 2 * (timeout + 2))%Z.
Proof. unfold Qle. simpl. lia. Qed.

(** What the loop guarantees from iteration [i] on, when the timeout is
    positive and fewer than [polls_until_kill timeout] polls were made. *)
Lemma poll_with_timeout (platform : string) (p : Process) (timeout : Z) (fuel i : nat) (l : locals) :
  (0 < timeout)%Z →
  (delay l == Z.of_nat i # 2)%Q →
  length (percents l) = i →
  killed l = false →
  i < polls_until_kill timeout →
  polls_until_kill timeout - i ≤ fuel →
  ∃ o, poll fuel platform p timeout i l = Some o
    ∧ (∀ l', o = Ok l' →
         (delay l' <= inject_Z (timeout + 2))%Q
         ∧ (killed l' = true ↔ (inject_Z (timeout + 2) <= delay l')%Q))
    ∧ ((∀ j, i ≤ j < polls_until_kill timeout →
             is_running p j = true ∧ ∃ stats, get_stats platform p j step = Ok stats) →
       ∃ l', o = Ok l' ∧ killed l' = true
             ∧ (delay l' == inject_Z (timeout + 2))%Q
             ∧ length (percents l') = polls_until_kill timeout).
Proof.
  intros Htimeout. unfold polls_until_kill.
  revert i l. induction fuel as [|fuel IH]; intros i l Hdelay Hlen Hkilled Hi Hfuel; [lia|].
  assert (Hstay : (delay l <= inject_Z (timeout + 2))%Q
                  ∧ (killed l = true ↔ (inject_Z (timeout + 2) <= delay l)%Q)).
  { rewrite Hdelay, Hkilled, half_le_deadline, deadline_le_half. lia. }
  simpl. destruct (is_running p i) eqn:Hrun; simpl.
  2:{ eexists. split; [reflexivity|]. split.
      - now intros l' [= <-].
      - intros Hall. destruct (Hall i) as [Hr _]; [lia|]. congruence. }
  destruct (get_stats platform p i step) as [stats|e] eqn:Hstats.
  2:{ assert (∃ o, match e with
                   | AccessDenied => Some (Ok l)
                   | _ => Some (Raise e)
                   end = Some o ∧ (o = Ok l ∨ o = Raise e)) as (o & -> & Ho).
      { destruct e; eexists; split; try reflexivity; auto. }
      eexists. split; [reflexivity|]. split.
      - intros l' ->. destruct Ho as [[= <-]|[=]]. exact Hstay.
      - intros Hall. destruct (Hall i) as [_ [? ?]]; [lia|]. congruence. }
  assert (Htm : (0 <? timeout)%Z = true) by now apply Z.ltb_lt.
  rewrite Htm. cbn [andb delay].
  assert (Hnext : (delay l + step == Z.of_nat (S i) # 2)%Q).
  { rewrite Hdelay. apply half_succ. }
  destruct (Qle_bool (inject_Z (timeout + 2)) (delay l + step)) eqn:Hcmp.
  - apply Qle_bool_iff in Hcmp.
    assert (Hreach : S i = Z.to_nat (2 * (timeout + 2))).
    { rewrite Hnext, deadline_le_half in Hcmp. lia. }
    eexists. split; [reflexivity|]. split.
    + intros l' [= <-]. cbn [delay killed]. split; [|tauto].
      rewrite Hnext, half_le_deadline. lia.
    + intros _. eexists. split; [reflexivity|]. cbn [delay killed percents].
      split; [reflexivity|]. split.
      * rewrite Hnext. unfold Qeq. simpl. lia.
      * rewrite length_app. simpl. lia.
  - assert (Hnot : ¬ (inject_Z (timeout + 2) <= delay l + step)%Q).
    { intros H. apply Qle_bool_iff in H. congruence. }
    rewrite Hnext, deadline_le_half in Hnot.
    destruct (IH (S i) {| delay := delay l + step;
                          percents := percents l ++ [utilization stats];
                          l_stats := Some stats; killed := killed l |})
      as (o & Ho & Hany & Hforever); cbn [delay percents killed]; try lia.
    + exact Hnext.
    + rewrite length_app. simpl. lia.
    + exact Hkilled.
    + exists o. split; [exact Ho|]. split; [exact Hany|].
      intros Hall. apply Hforever. intros j Hj. apply Hall. lia.
Qed.

(** The samples in [percents] are the utilizations that the process gave,
    poll after poll, and [stats] is bound as soon as there is a sample. *)
Lemma poll_collects (platform : string) (p : Process) (timeout : Z) (fuel i : nat) (l l' : locals) :
  poll fuel platform p timeout i l = Some (Ok l') →
  ∃ us, percents l' = percents l ++ us
    ∧ (∀ j u, us !! j = Some u → cpu_percent p (i + j) step = Ok u)
    ∧ (us = [] → l_stats l' = l_stats l)
    ∧ (us ≠ [] → is_Some (l_stats l')).
Proof.
  revert i l. induction fuel as [|fuel IH]; intros i l; [discriminate|]. simpl.
  assert (Hstop : Some (Ok l) = Some (Ok l') →
    ∃ us, percents l' = percents l ++ us
      ∧ (∀ j u, us !! j = Some u → cpu_percent p (i + j) step = Ok u)
      ∧ (us = [] → l_stats l' = l_stats l)
      ∧ (us ≠ [] → is_Some (l_stats l'))).
  { intros [= <-]. exists []. rewrite app_nil_r. repeat split; try done. }
  destruct (is_running p i); simpl; [|exact Hstop].
  destruct (get_stats platform p i step) as [stats|e] eqn:Hstats.
  2:{ destruct e; try discriminate. exact Hstop. }
  apply get_stats_utilization in Hstats.
  assert (Hcons : ∀ us : list Q,
    (∀ j u, us !! j = Some u → cpu_percent p (S i + j) step = Ok u) →
    ∀ j u, (utilization stats :: us) !! j = Some u → cpu_percent p (i + j) step = Ok u).
  { intros us Hus [|j] u; simpl.
    - intros [= <-]. now rewrite Nat.add_0_r.
    - intros Hj. rewrite <- Nat.add_succ_comm. now apply Hus. }
  destruct ((0 <? timeout)%Z && _).
  - intros [= <-]. cbn [percents l_stats]. exists [utilization stats].
    split; [reflexivity|]. split; [|split; [discriminate | now eexists]].
    apply Hcons. intros j u Hj. discriminate.
  - intros H. destruct (IH _ _ H) as (us & Hp & Hus & Hnil & Hcons').
    cbn [percents l_stats] in *. exists (utilization stats :: us).
    split; [now rewrite Hp, <- app_assoc|].
    split; [now apply Hcons|]. split; [discriminate|]. intros _.
    destruct us as [|u us]; [rewrite Hnil by reflexivity; now eexists|].
    now apply Hcons'.
Qed.

End PollFacts.

(** ** The result of run_query *)

Module RunFacts.
Import Psutil Profile Spec.

Lemma sum_from (l : list Q) (a : Q) : (fold_left Qplus l a == a + fold_right Qplus 0 l)%Q.
Proof.
  revert a. induction l as [|x l IH]; intros a; simpl; [ring|].
  rewrite IH. ring.
Qed.

Lemma sum_fold_right (l : list Q) : (sum l == fold_right Qplus 0 l)%Q.
Proof. unfold sum. rewrite sum_from. ring. Qed.

Lemma filter_nonzero (samples : list Q) :
  List.filter (λ p, negb (Qeq_bool p 0)) samples = nonzero samples.
Proof.
  unfold nonzero. induction samples as [|x l IH]; [reflexivity|].
  rewrite filter_cons. simpl. rewrite IH.
  destruct (Qeq_bool x 0) eqn:E; simpl.
  - apply Qeq_bool_iff in E. now rewrite decide_False by tauto.
  - apply Qeq_bool_neq in E. now rewrite decide_True.
Qed.

Lemma avg_utilization_none (samples : list Q) :
  nonzero samples = [] → avg_utilization samples = 0%Q.
Proof. unfold avg_utilization. rewrite filter_nonzero. now intros ->. Qed.

Lemma avg_utilization_mean (samples : list Q) :
  nonzero samples ≠ [] → (avg_utilization samples == mean (nonzero samples))%Q.
Proof.
  unfold avg_utilization, mean, len. rewrite filter_nonzero.
  destruct (nonzero samples) as [|x l] eqn:E; [congruence|]. intros _.
  now rewrite sum_fold_right.
Qed.

Section World.
Variable platform : string.
Variable Popen : nat → list string → Process.

(** A run that returns a result took a sample, and the result is the
    dictionary built from the last one. *)
Lemma run_query_Ok fuel n shell query timeout count result :
  run_query platform Popen fuel n shell query timeout count = Some (Ok result) →
  ∃ l stats,
    poll fuel platform (Popen n (argv shell query count)) timeout 0 locals0 = Some (Ok l)
    ∧ l_stats l = Some stats
    ∧ build_result (Popen n (argv shell query count)) l = Ok result.
Proof.
  unfold run_query.
  destruct (poll _ _ _ _ _ _) as [[l|e]|]; simpl; try discriminate.
  intros [= H]. unfold build_result in H |- *.
  destruct (l_stats l) as [stats|] eqn:E; [|discriminate].
  exists l, stats. now rewrite E.
Qed.

(** A run in which the first poll finds the process gone, or is denied
    access, reads the unbound [stats]. *)
Lemma run_query_without_sample fuel n shell query timeout count :
  let p := Popen n (argv shell query count) in
  is_running p 0 = false ∨ get_stats platform p 0 step = Raise AccessDenied →
  run_query platform Popen (S fuel) n shell query timeout count
    = Some (Raise (UnboundLocalError "stats")).
Proof.
  intros p H. unfold run_query. fold p.
  cbn [poll]. destruct (is_running p 0); cbn [negb].
  - destruct H as [H|H]; [discriminate|]. now rewrite H.
  - reflexivity.
Qed.

End World.

End RunFacts.

(** ** The aggregation of profile *)

Module AggregateFacts.
Import Psutil Profile Spec.

(** [store] appends the value of every key of [result] to the list kept
    under that key, and leaves the other lists alone. *)
Lemma store_lookup (result : gmap string Q) (results : gmap string (list Q)) (k : string) :
  store result results !! k =
    match result !! k with
    | Some v => Some (default [] (results !! k) ++ [v])
    | None => results !! k
    end.
Proof.
  unfold store.
  apply (map_fold_weak_ind (λ acc (m : gmap string Q),
    acc !! k = match m !! k with
               | Some v => Some (default [] (results !! k) ++ [v])
               | None => results !! k
               end)).
  - now rewrite lookup_empty.
  - intros i x m acc Hfresh IH. destruct (decide (i = k)) as [->|Hne].
    + rewrite !lookup_insert_eq. rewrite Hfresh in IH. now rewrite IH.
    + now rewrite !lookup_insert_ne by exact Hne.
Qed.

(** The values under one key after several results were stored. *)
Lemma stored_lookup (runs : list (gmap string Q)) (results : gmap string (list Q)) (k : string) :
  foldl (λ acc r, store r acc) results runs !! k =
    match omap (λ r : gmap string Q, r !! k) runs with
    | [] => results !! k
    | values => Some (default [] (results !! k) ++ values)
    end.
Proof.
  revert results. induction runs as [|r runs IH]; intros results; [reflexivity|].
  cbn [foldl]. rewrite IH, store_lookup. cbn [omap list_omap].
  fold (omap (λ r : gmap string Q, r !! k) runs).
  destruct (r !! k) as [v|]; cbn [default]; [|reflexivity].
  destruct (omap _ runs) as [|v' values]; [reflexivity|].
  unfold id. now rewrite <- app_assoc.
Qed.

Lemma omap_total (runs : list (gmap string Q)) (k : string) :
  (∀ r, r ∈ runs → is_Some (r !! k)) →
  Forall2 (λ (r : gmap string Q) v, r !! k = Some v) runs
    (omap (λ r : gmap string Q, r !! k) runs).
Proof.
  induction runs as [|r runs IH]; intros H; [constructor|].
  cbn [omap list_omap]. destruct (H r) as [v Hv]; [apply list_elem_of_here|].
  rewrite Hv. constructor; [exact Hv|]. apply IH.
  intros r' Hr'. apply H. now apply list_elem_of_further.
Qed.

Lemma omap_nonempty (runs : list (gmap string Q)) (k : string) :
  omap (λ r : gmap string Q, r !! k) runs ≠ [] →
  ∃ r, r ∈ runs ∧ is_Some (r !! k).
Proof.
  induction runs as [|r runs IH]; [intros H; now contradiction H|].
  cbn [omap list_omap]. destruct (r !! k) as [x|] eqn:Hx.
  - intros _. exists r. split; [apply list_elem_of_here|]. rewrite Hx. now exists x.
  - intros H. destruct (IH H) as (r' & Hr' & Hs).
    exists r'. split; [now apply list_elem_of_further | exact Hs].
Qed.

Lemma omap_Forall2 (runs : list (gmap string Q)) (k : string) (values : list Q) :
  Forall2 (λ (r : gmap string Q) v, r !! k = Some v) runs values →
  omap (λ r : gmap string Q, r !! k) runs = values.
Proof.
  induction 1 as [|r v runs values Hv _ IH]; [reflexivity|].
  cbn [omap list_omap]. rewrite Hv. f_equal. exact IH.
Qed.

Lemma average_mean (values : list Q) : (average values == mean values)%Q.
Proof. unfold average, mean, len. now rewrite RunFacts.sum_fold_right. Qed.

Section World.
Variable platform : string.
Variable Popen : nat → list string → Process.

(** Every result of run_query has the seven fields and no other. *)
Lemma run_query_fields fuel n shell query timeout count result (k : string) :
  run_query platform Popen fuel n shell query timeout count = Some (Ok result) →
  is_Some (result !! k) ↔ k ∈ result_fields.
Proof.
  intros H. destruct (RunFacts.run_query_Ok _ _ _ _ _ _ _ _ _ H) as (l & stats & _ & Hs & Hr).
  unfold build_result in Hr. rewrite Hs in Hr. injection Hr as <-.
  cbn [list_to_map foldr uncurry fst snd]. unfold result_fields.
  rewrite !lookup_insert_is_Some', !elem_of_cons, elem_of_nil.
  pose proof (lookup_empty_is_Some (M := gmap string) (A := Q) k). intuition congruence.
Qed.

(** The rounds are run one after the other, each on the next subprocess,
    and their results are stored in that order. *)
Lemma rounds_loop_runs fuel shell query timeout count (runs : list (gmap string Q)) :
  ∀ n results,
  (∀ i r, runs !! i = Some r →
          run_query platform Popen fuel (n + i) shell query timeout count = Some (Ok r)) →
  rounds_loop platform Popen fuel n shell query timeout count (length runs) results
    = Some (Ok (foldl (λ acc r, store r acc) results runs)).
Proof.
  induction runs as [|r runs IH]; intros n results H; [reflexivity|].
  cbn [length rounds_loop foldl].
  rewrite <- (Nat.add_0_r n) at 1. rewrite (H 0 r eq_refl). cbn [fbind].
  apply IH. intros i r' Hi. rewrite Nat.add_succ_comm. now apply H.
Qed.

End World.

End AggregateFacts.

(** ** Claims about the leak checker *)

Lemma summary0_lookup (key : string) :
  key ∈ Leaks.keys → Leaks.summary0 !! key = Some None.
Proof.
  unfold Leaks.keys. rewrite !elem_of_cons, elem_of_nil.
  intros [->|[->|[->|[]]]]; reflexivity.
Qed.

(** The line of the specification's example. *)
Example parse_definitely_lost :
  ∃ summary,
    Leaks.parse_stderr "definitely lost: 120 bytes" = Ok summary
    ∧ summary !! "definitely" = Some (Some "120 bytes")
    ∧ summary !! "indirectly" = Some None
    ∧ summary !! "possibly" = Some None.
Proof. eexists. split; [vm_compute; reflexivity|]. repeat split. Qed.

(** C6, as amended.  When the diagnostic output is ASCII and every line of
    it that mentions a token has a colon, the leak check returns a summary,
    and for each of the tokens "definitely", "indirectly", "possibly": if
    no line contains the token the field is null; otherwise the field is
    the text between the first colon and the next colon (or the end of the
    line) of the last line that contains the token, with the white space
    at both ends removed. *)
Theorem leak_summary_fields (stderr : string) :
  Str.is_ascii stderr = true →
  (∀ line, line ∈ Str.split linefeed stderr →
           Spec.mentions_token line → Str.has_char colon line = true) →
  ∃ summary,
    Leaks.parse_stderr stderr = Ok summary
    ∧ ∀ key, key ∈ Leaks.keys →
        ((∀ line, line ∈ Str.split linefeed stderr → ¬ Spec.contains key line) →
         summary !! key = Some None)
        ∧ (∀ pre line post head body rest,
             Str.split linefeed stderr = pre ++ line :: post →
             Spec.contains key line →
             (∀ l, l ∈ post → ¬ Spec.contains key l) →
             line = head +:+ String colon (body +:+ rest) →
             Str.has_char colon head = false →
             Str.has_char colon body = false →
             rest = EmptyString ∨ (∃ t, rest = String colon t) →
             ∃ v, summary !! key = Some (Some v) ∧ Spec.trimmed body v).
Proof.
  intros Hascii Hcolon. rewrite (LeaksFacts.parse_stderr_ascii _ Hascii).
  destruct (LeaksFacts.scan_lines_Ok _ Leaks.summary0 Hcolon) as [summary Hs].
  exists summary. split; [exact Hs|]. intros key Hkey. split.
  - intros Hno. rewrite (LeaksFacts.scan_lines_untouched _ _ _ _ Hs Hno).
    now apply summary0_lookup.
  - intros pre line post head body rest Hlines Hc Hpost -> Hhead Hbody Hrest.
    rewrite Hlines in Hs.
    destruct (LeaksFacts.scan_lines_last _ _ _ _ _ _ Hs Hkey Hc Hpost) as (v & Hv & Hl).
    exists v. split; [exact Hl|].
    unfold Leaks.field in Hv.
    rewrite (StrFacts.split_second _ _ _ _ Hhead Hbody Hrest) in Hv.
    injection Hv as <-. apply StrFacts.strip_trimmed.
Qed.

Lemma leak_summary_fields_witness :
  ∃ summary,
    Leaks.parse_stderr "definitely lost: 120 bytes" = Ok summary
    ∧ ∀ key, key ∈ Leaks.keys →
        ((∀ line, line ∈ Str.split linefeed "definitely lost: 120 bytes" →
                  ¬ Spec.contains key line) →
         summary !! key = Some None)
        ∧ (∀ pre line post head body rest,
             Str.split linefeed "definitely lost: 120 bytes" = pre ++ line :: post →
             Spec.contains key line →
             (∀ l, l ∈ post → ¬ Spec.contains key l) →
             line = head +:+ String colon (body +:+ rest) →
             Str.has_char colon head = false →
             Str.has_char colon body = false →
             rest = EmptyString ∨ (∃ t, rest = String colon t) →
             ∃ v, summary !! key = Some (Some v) ∧ Spec.trimmed body v).
Proof.
  apply (leak_summary_fields "definitely lost: 120 bytes"); [reflexivity|].
  intros line Hline _. vm_compute in Hline.
  apply list_elem_of_singleton in Hline. subst line. reflexivity.
Defined.

(** C6 as stated fails on a line with two colons: the field is the text up
    to the second colon, not all the text after the first one. *)
Lemma leak_field_stops_at_second_colon :
  let line := "definitely lost: 120 bytes: in 3 blocks" in
  Spec.contains "definitely" line
  ∧ Spec.after_first_colon line = Some " 120 bytes: in 3 blocks"
  ∧ ∃ summary,
      Leaks.parse_stderr line = Ok summary
      ∧ summary !! "definitely" = Some (Some "120 bytes")
      ∧ summary !! "definitely" ≠ Some (Str.strip <$> Spec.after_first_colon line).
Proof.
  split; [|split].
  - exists EmptyString, " lost: 120 bytes: in 3 blocks". reflexivity.
  - reflexivity.
  - eexists. split; [vm_compute; reflexivity|]. split; [reflexivity|].
    vm_compute. discriminate.
Qed.

(** C8, at a failing input.  A line that mentions a token and has no colon
    makes the parser of check_leaks_linux raise [IndexError]; profile_leaks
    does not catch it, so the whole batch ends with the exception.  The same
    line goes through the [try] block of check_leaks_darwin silently. *)
Theorem leak_line_without_colon_raises :
  let stderr := "==4== 48 bytes in 3 blocks are definitely lost in loss record 1 of 2" in
  Leaks.parse_stderr stderr = Raise IndexError
  ∧ Leaks.parse_stderr "definitely lost" = Raise IndexError
  ∧ Leaks.profile_leaks (λ _ _, (EmptyString, stderr)) "./run"
      [("q1", "SELECT 1;"); ("q2", "SELECT 2;")] 1 None = Raise IndexError
  ∧ Leaks.scan_darwin ["total leaked bytes"] None = None.
Proof. repeat split. Qed.

(** C10.  When several lines of the diagnostic output contain the same
    token, the field of the summary is the value parsed from the last of
    them, whatever the earlier lines gave. *)
Theorem leak_last_matching_line_wins (stderr : string) (pre post : list string)
    (line key : string) (summary : gmap string (option string)) :
  Leaks.parse_stderr stderr = Ok summary →
  Str.split linefeed stderr = pre ++ line :: post →
  key ∈ Leaks.keys →
  Spec.contains key line →
  (∀ l, l ∈ post → ¬ Spec.contains key l) →
  ∃ v, Leaks.field line = Ok v ∧ summary !! key = Some (Some v).
Proof.
  intros [_ Hs]%LeaksFacts.parse_stderr_Ok Hlines Hkey Hc Hpost.
  rewrite Hlines in Hs. exact (LeaksFacts.scan_lines_last _ _ _ _ _ _ Hs Hkey Hc Hpost).
Qed.

Lemma leak_last_matching_line_wins_witness :
  let stderr := "definitely lost: 16 bytes" +:+ String linefeed "definitely lost: 32 bytes" in
  ∃ summary,
    Leaks.parse_stderr stderr = Ok summary
    ∧ ∃ v, Leaks.field "definitely lost: 32 bytes" = Ok v
           ∧ summary !! "definitely" = Some (Some v).
Proof.
  intros stderr. eexists. split; [vm_compute; reflexivity|].
  apply (leak_last_matching_line_wins stderr ["definitely lost: 16 bytes"] []
           "definitely lost: 32 bytes" "definitely").
  - vm_compute; reflexivity.
  - reflexivity.
  - apply list_elem_of_here.
  - exists EmptyString, " lost: 32 bytes". reflexivity.
  - intros l Hl. inversion Hl.
Defined.

(** ** Claims about the classifier *)

(** C2.  For each of the metrics utilization, cpu_time, memory, fds and
    duration, and every value recorded under it, summary writes the rank
    computed against the thresholds of the metric, and that rank is the
    smallest index whose threshold is strictly above the value, or the
    number of thresholds when the value is at least every threshold. *)
Theorem classifier_rank (result : gmap string Q) (metric : string) (value : Q) :
  metric ∈ Spec.metrics →
  result !! metric = Some value →
  ∃ ts r,
    RANGES !! metric = Some (Thresholds ts)
    ∧ Profile.summary_result result !! metric = Some r
    ∧ Spec.first_below value ts r.
Proof.
  intros Hmetric Hvalue.
  destruct (RankFacts.metric_thresholds metric Hmetric) as (Hcolors & ts & Hts).
  exists ts, (Profile.rank value ts). split; [exact Hts|]. split.
  - rewrite RankFacts.summary_result_lookup, Hts. simpl. now rewrite Hcolors, Hvalue.
  - apply RankFacts.rank_first_below.
Qed.

(** The values of the specification for cpu_time, thresholds (0.4, 1, 10):
    0.3 gives rank 0, 0.4 gives 1, 1.0 gives 2, 10.0 and 50.0 give 3. *)
Lemma classifier_rank_witness :
  RANGES !! "cpu_time" = Some (Thresholds [4 # 10; 1; 10]%Q)
  ∧ Profile.summary_result {["cpu_time" := (3 # 10)%Q]} !! "cpu_time" = Some 0
  ∧ Profile.summary_result {["cpu_time" := (4 # 10)%Q]} !! "cpu_time" = Some 1
  ∧ Profile.summary_result {["cpu_time" := 1%Q]} !! "cpu_time" = Some 2
  ∧ Profile.summary_result {["cpu_time" := 10%Q]} !! "cpu_time" = Some 3
  ∧ Profile.summary_result {["cpu_time" := 50%Q]} !! "cpu_time" = Some 3.
Proof.
  assert (Hin : "cpu_time" ∈ Spec.metrics) by (vm_compute; repeat constructor).
  assert (Hat : ∀ value r,
    Spec.first_below value [4 # 10; 1; 10]%Q r →
    Profile.summary_result {["cpu_time" := value]} !! "cpu_time" = Some r).
  { intros value r Hr.
    destruct (classifier_rank {["cpu_time" := value]} "cpu_time" value Hin)
      as (ts & r' & Hts & Hsum & Hr'); [apply lookup_singleton_eq|].
    vm_compute in Hts. injection Hts as <-.
    now rewrite Hsum, (RankFacts.first_below_unique _ _ _ _ Hr Hr'). }
  split; [reflexivity|].
  repeat split; apply Hat; apply RankFacts.rank_first_below.
Defined.

(** C9.  The rank that summary gives under a metric does not decrease when
    the value grows: for x <= y, the rank of x is at most the rank of y. *)
Theorem classifier_monotone (result1 result2 : gmap string Q) (metric : string)
    (x y : Q) (r1 r2 : nat) :
  result1 !! metric = Some x →
  result2 !! metric = Some y →
  (x <= y)%Q →
  Profile.summary_result result1 !! metric = Some r1 →
  Profile.summary_result result2 !! metric = Some r2 →
  r1 ≤ r2.
Proof.
  intros Hx Hy Hxy. rewrite !RankFacts.summary_result_lookup, Hx, Hy.
  destruct (RANGES !! metric) as [[cs|ts]|]; simpl;
    destruct (String.eqb metric "colors"); try discriminate.
  intros [= <-] [= <-]. now apply RankFacts.rank_mono.
Qed.

Lemma classifier_monotone_witness :
  Profile.summary_result {["duration" := (9 # 10)%Q]} !! "duration" = Some 1
  ∧ Profile.summary_result {["duration" := 2%Q]} !! "duration" = Some 2
  ∧ 1 ≤ 2.
Proof.
  split; [reflexivity|]. split; [reflexivity|].
  apply (classifier_monotone {["duration" := (9 # 10)%Q]} {["duration" := 2%Q]}
           "duration" (9 # 10)%Q 2%Q 1 2).
  - apply lookup_singleton_eq.
  - apply lookup_singleton_eq.
  - vm_compute. discriminate.
  - reflexivity.
  - reflexivity.
Defined.

(** ** Claims about run_query *)

(** C1, at a failing input.  When no sample was collected, lines 185 to
    189 compute an average of 0, but the [return] statement reads the
    unbound [stats]: run_query ends with [UnboundLocalError] and there is
    no result whose utilization could be 0. *)
Theorem no_sample_no_utilization :
  ∃ l,
    Profile.poll 1 "linux" Scenario.exited 0 0 Profile.locals0 = Some (Ok l)
    ∧ Profile.percents l = []
    ∧ Profile.avg_utilization (Profile.percents l) = 0%Q
    ∧ Profile.build_result Scenario.exited l = Raise (UnboundLocalError "stats")
    ∧ Profile.run_query "linux" (λ _ _, Scenario.exited) 1 0 "./run" "SELECT 1;" 0 1
      = Some (Raise (UnboundLocalError "stats")).
Proof. eexists. split; [reflexivity|]. repeat split. Qed.

(** The rest of C1 holds of the results that run_query does return: the
    utilization field is computed from the samples that the polling loop
    collected, it is 0 when none of them is non-zero, and the arithmetic
    mean of the non-zero ones otherwise. *)
Theorem utilization_is_mean_of_nonzero_samples (platform : string)
    (Popen : nat → list string → Psutil.Process) (fuel n : nat)
    (shell query : string) (timeout count : Z) (result : gmap string Q) :
  Profile.run_query platform Popen fuel n shell query timeout count = Some (Ok result) →
  ∃ l u,
    Profile.poll fuel platform (Popen n (Profile.argv shell query count))
      timeout 0 Profile.locals0 = Some (Ok l)
    ∧ (∀ j sample, Profile.percents l !! j = Some sample →
         Psutil.cpu_percent (Popen n (Profile.argv shell query count)) j Profile.step
           = Ok sample)
    ∧ result !! "utilization" = Some u
    ∧ (Spec.nonzero (Profile.percents l) = [] → u = 0%Q)
    ∧ (Spec.nonzero (Profile.percents l) ≠ [] →
       (u == Spec.mean (Spec.nonzero (Profile.percents l)))%Q).
Proof.
  intros H. destruct (RunFacts.run_query_Ok _ _ _ _ _ _ _ _ _ H) as (l & stats & Hl & Hs & Hr).
  exists l, (Profile.avg_utilization (Profile.percents l)).
  split; [exact Hl|]. split.
  - destruct (PollFacts.poll_collects _ _ _ _ _ _ _ Hl) as (us & Hus & Hget & _).
    cbn [Profile.percents Profile.locals0 app] in Hus. rewrite Hus. exact Hget.
  - unfold Profile.build_result in Hr. rewrite Hs in Hr. injection Hr as <-.
    split; [reflexivity|].
    split; [apply RunFacts.avg_utilization_none | apply RunFacts.avg_utilization_mean].
Qed.

(** The samples of the specification: 0, 0, 10, 20, 0 average to 15. *)
Lemma utilization_is_mean_of_nonzero_samples_witness :
  ∃ result u,
    Profile.run_query "linux" (λ _ _, Scenario.sampled [0; 0; 10; 20; 0]%Q)
      6 0 "./run" "SELECT 1;" 0 1 = Some (Ok result)
    ∧ result !! "utilization" = Some u
    ∧ (u == 15)%Q.
Proof.
  eexists. 
  destruct (utilization_is_mean_of_nonzero_samples "linux"
              (λ _ _, Scenario.sampled [0; 0; 10; 20; 0]%Q) 6 0 "./run" "SELECT 1;" 0 1 _
              eq_refl) as (l & u & Hl & _ & Hu & _ & Hmean).
  exists u. split; [reflexivity|]. split; [exact Hu|].
  vm_compute in Hl. injection Hl as <-.
  rewrite Hmean by (vm_compute; discriminate). reflexivity.
Defined.

(** C4.  With a positive timeout and fuel for [2 * (timeout + 2)] polls the
    polling loop ends, whatever the process does.  It never lets the delay
    grow beyond [timeout + 2]; it has killed the subprocess exactly when
    the delay has reached [timeout + 2]; and a subprocess that keeps
    running is killed at that delay. *)
Theorem timeout_stops_polling (platform : string) (p : Psutil.Process)
    (timeout : Z) (fuel : nat) :
  (0 < timeout)%Z →
  Spec.polls_until_kill timeout ≤ fuel →
  ∃ o, Profile.poll fuel platform p timeout 0 Profile.locals0 = Some o
    ∧ (∀ l, o = Ok l →
         (Profile.delay l <= inject_Z (timeout + 2))%Q
         ∧ (Profile.killed l = true ↔ (inject_Z (timeout + 2) <= Profile.delay l)%Q))
    ∧ ((∀ j, j < Spec.polls_until_kill timeout →
             Psutil.is_running p j = true
             ∧ ∃ stats, Profile.get_stats platform p j Profile.step = Ok stats) →
       ∃ l, o = Ok l ∧ Profile.killed l = true
            ∧ (Profile.delay l == inject_Z (timeout + 2))%Q
            ∧ length (Profile.percents l) = Spec.polls_until_kill timeout).
Proof.
  intros Htimeout Hfuel.
  destruct (PollFacts.poll_with_timeout platform p timeout fuel 0 Profile.locals0)
    as (o & Ho & Hany & Hforever); try reflexivity; try assumption.
  - unfold Spec.polls_until_kill. lia.
  - lia.
  - exists o. split; [exact Ho|]. split; [exact Hany|].
    intros Hall. apply Hforever. intros j Hj. apply Hall. lia.
Qed.

(** The case of the specification: a timeout of 2 and a subprocess that
    never exits; the loop kills it at a delay of 4, after 8 polls. *)
Lemma timeout_stops_polling_witness :
  ∃ l, Profile.poll 8 "linux" Scenario.forever 2 0 Profile.locals0 = Some (Ok l)
    ∧ Profile.killed l = true
    ∧ (Profile.delay l == 4)%Q
    ∧ length (Profile.percents l) = 8.
Proof.
  destruct (timeout_stops_polling "linux" Scenario.forever 2 8)
    as (o & Ho & _ & Hforever); [lia | vm_compute; lia |].
  destruct Hforever as (l & -> & Hkilled & Hdelay & Hlen).
  - intros j _. split; [reflexivity | eexists; reflexivity].
  - exists l. split; [exact Ho|]. split; [exact Hkilled|]. split; [exact Hdelay | exact Hlen].
Defined.

(** C5.  In every result that run_query returns, the cpu_time field is the
    sum of the user_time and system_time fields. *)
Theorem cpu_time_is_user_plus_system (platform : string)
    (Popen : nat → list string → Psutil.Process) (fuel n : nat)
    (shell query : string) (timeout count : Z) (result : gmap string Q) :
  Profile.run_query platform Popen fuel n shell query timeout count = Some (Ok result) →
  ∃ user_time system_time,
    result !! "user_time" = Some user_time
    ∧ result !! "system_time" = Some system_time
    ∧ result !! "cpu_time" = Some (user_time + system_time)%Q.
Proof.
  intros H. destruct (RunFacts.run_query_Ok _ _ _ _ _ _ _ _ _ H) as (l & stats & _ & Hs & Hr).
  unfold Profile.build_result in Hr. rewrite Hs in Hr. injection Hr as <-.
  exists (Psutil.user (Profile.s_cpu_times stats)), (Psutil.system (Profile.s_cpu_times stats)).
  repeat split.
Qed.

Lemma cpu_time_is_user_plus_system_witness :
  ∃ result user_time system_time,
    Profile.run_query "linux" (λ _ _, Scenario.sampled [0; 0; 10; 20; 0]%Q)
      6 0 "./run" "SELECT 1;" 0 1 = Some (Ok result)
    ∧ result !! "user_time" = Some user_time
    ∧ result !! "system_time" = Some system_time
    ∧ result !! "cpu_time" = Some (user_time + system_time)%Q.
Proof.
  eexists.
  destruct (cpu_time_is_user_plus_system "linux"
              (λ _ _, Scenario.sampled [0; 0; 10; 20; 0]%Q) 6 0 "./run" "SELECT 1;" 0 1 _
              eq_refl) as (u & s & Hu & Hs & Hc).
  exists u, s. split; [reflexivity|]. split; [exact Hu|]. split; [exact Hs | exact Hc].
Defined.

(** C7, at two failing inputs.  When the subprocess has exited before the
    first poll, or the first poll is denied access, no sample is taken and
    run_query ends with [UnboundLocalError] on [stats] instead of returning
    a result. *)
Theorem run_without_sample_raises :
  Profile.run_query "linux" (λ _ _, Scenario.exited) 1 0 "./run" "SELECT 1;" 0 1
    = Some (Raise (UnboundLocalError "stats"))
  ∧ Profile.run_query "linux" (λ _ _, Scenario.denied) 1 0 "./run" "SELECT 1;" 0 1
    = Some (Raise (UnboundLocalError "stats")).
Proof. split; reflexivity. Qed.

(** ** Claims about profile *)

(** C3.  When the rounds of a query return the results [runs], one per
    round, profile returns an aggregated result for the query; each of its
    fields is the arithmetic mean of the values of that field in all the
    rounds, and when there is at least one round it has every field of a
    result. *)
Theorem aggregated_fields_are_means (platform : string)
    (Popen : nat → list string → Psutil.Process) (fuel n : nat)
    (shell query : string) (timeout count rounds : Z) (runs : list (gmap string Q)) :
  Z.to_nat rounds = length runs →
  (∀ i r, runs !! i = Some r →
          Profile.run_query platform Popen fuel (n + i) shell query timeout count
            = Some (Ok r)) →
  ∃ average_results,
    Profile.profile_query platform Popen fuel n shell query timeout count rounds
      = Some (Ok average_results)
    ∧ (∀ k a, average_results !! k = Some a →
         ∃ values, Forall2 (λ (r : gmap string Q) v, r !! k = Some v) runs values
                   ∧ (a == Spec.mean values)%Q)
    ∧ (∀ k, k ∈ Spec.result_fields → runs ≠ [] → is_Some (average_results !! k)).
Proof.
  intros Hrounds Hruns. unfold Profile.profile_query. rewrite Hrounds.
  rewrite (AggregateFacts.rounds_loop_runs _ _ _ _ _ _ _ _ _ _ Hruns). cbn [fbind].
  eexists. split; [reflexivity|].
  assert (Hfields : ∀ k r, r ∈ runs → is_Some (r !! k) ↔ k ∈ Spec.result_fields).
  { intros k r [i Hi]%list_elem_of_lookup.
    exact (AggregateFacts.run_query_fields _ _ _ _ _ _ _ _ _ k (Hruns i r Hi)). }
  split.
  - intros k a. rewrite lookup_fmap, AggregateFacts.stored_lookup, lookup_empty.
    cbn [default app].
    destruct (omap _ runs) as [|v values] eqn:E; [discriminate|].
    intros [= <-]. exists (v :: values). split; [|apply AggregateFacts.average_mean].
    rewrite <- E. apply AggregateFacts.omap_total.
    destruct (AggregateFacts.omap_nonempty runs k) as (r0 & Hr0 & Hsome);
      [rewrite E; discriminate|].
    assert (Hk : k ∈ Spec.result_fields) by now apply (Hfields k r0 Hr0).
    intros r Hr. now apply Hfields.
  - intros k Hk Hne. rewrite lookup_fmap, AggregateFacts.stored_lookup, lookup_empty.
    assert (Hall : ∀ r, r ∈ runs → is_Some (r !! k)) by (intros r Hr; now apply Hfields).
    pose proof (AggregateFacts.omap_total runs k Hall) as H2.
    destruct H2 as [|r v runs' values Hv _]; [congruence|]. now eexists.
Qed.

(** Two rounds, with utilizations 15 and 30: the aggregate is 45/2. *)
Lemma aggregated_fields_are_means_witness :
  let Popen := λ (n : nat) (_ : list string),
    Scenario.sampled (match n with 0 => [10; 20]%Q | _ => [30]%Q end) in
  ∃ average_results a,
    Profile.profile_query "linux" Popen 4 0 "./run" "SELECT 1;" 0 1 2
      = Some (Ok average_results)
    ∧ average_results !! "utilization" = Some a
    ∧ (a == 45 # 2)%Q.
Proof.
  intros Popen.
  destruct (aggregated_fields_are_means "linux" Popen 4 0 "./run" "SELECT 1;" 0 1 2
              (omap (λ n, match Profile.run_query "linux" Popen 4 n "./run" "SELECT 1;" 0 1 with
                          | Some (Ok r) => Some r
                          | _ => None
                          end) [0; 1]))
    as (average_results & Hquery & Hmean & Hfields).
  - reflexivity.
  - intros [|[|i]] r; [| |discriminate]; intros [= <-]; reflexivity.
  - destruct (Hfields "utilization") as [a Ha].
    + vm_compute. repeat constructor.
    + discriminate.
    + exists average_results, a. split; [exact Hquery|]. split; [exact Ha|].
      destruct (Hmean _ _ Ha) as (values & Hvalues & ->).
      apply AggregateFacts.omap_Forall2 in Hvalues. rewrite <- Hvalues.
      vm_compute. reflexivity.
Defined.

(** * Further properties of the code *)

(** ** String methods *)

Module StrExtFacts.
Import Str StrExt Spec Notions.

Lemma lstrip_fixed (s : string) : no_space_at_start s → lstrip s = s.
Proof. destruct s as [|c s]; simpl; [reflexivity|]. now intros ->. Qed.

Lemma rstrip_fixed (s : string) : no_space_at_end s → rstrip s = s.
Proof.
  induction s as [|c s IH]; intros H; simpl; [reflexivity|].
  rewrite IH.
  - destruct s as [|d s]; [|reflexivity].
    now rewrite (H EmptyString c eq_refl).
  - intros t d ->. exact (H (String c t) d eq_refl).
Qed.

Lemma occurs_at_0 (key s : string) : occurs_at key s 0 ↔ startswith key s = true.
Proof.
  split.
  - intros (a & b & -> & Ha). destruct a; [|discriminate]. simpl.
    apply StrFacts.startswith_app.
  - intros [b ->]%StrFacts.startswith_inv. now exists EmptyString, b.
Qed.

Lemma occurs_at_S (key s : string) (c : ascii) (i : nat) :
  occurs_at key (String c s) (S i) ↔ occurs_at key s i.
Proof.
  split.
  - intros (a & b & H & Ha). destruct a as [|d a]; [discriminate|].
    simpl in H, Ha. injection H as _ ->. exists a, b. split; [reflexivity | lia].
  - intros (a & b & -> & Ha). exists (String c a), b. simpl. split; [reflexivity | lia].
Qed.

Lemma occurs_at_contains (key s : string) (i : nat) : occurs_at key s i → contains key s.
Proof. intros (a & b & H & _). now exists a, b. Qed.

Lemma find_from_lowest (key s : string) (k : Z) :
  (find_from k key s = (-1)%Z ∧ ¬ contains key s)
  ∨ ∃ i, find_from k key s = (k + Z.of_nat i)%Z
         ∧ occurs_at key s i ∧ ∀ j, j < i → ¬ occurs_at key s j.
Proof.
  revert k. induction s as [|c s IH]; intros k; simpl.
  - destruct (startswith key EmptyString) eqn:E.
    + right. exists 0. split; [lia|]. split; [now apply occurs_at_0 | lia].
    + left. split; [reflexivity|]. intros (a & b & H).
      destruct a; [|discriminate]. simpl in H. rewrite H, StrFacts.startswith_app in E.
      discriminate.
  - destruct (startswith key (String c s)) eqn:E.
    + right. exists 0. split; [lia|]. split; [now apply occurs_at_0 | lia].
    + destruct (IH (k + 1)%Z) as [[Hf Hno]|(i & Hf & Hi & Hmin)].
      * left. split; [exact Hf|]. intros (a & b & H). destruct a as [|d a]; simpl in H.
        -- rewrite H, StrFacts.startswith_app in E. discriminate.
        -- injection H as _ ->. apply Hno. now exists a, b.
      * right. exists (S i). split; [lia|]. split; [now apply occurs_at_S|].
        intros [|j] Hj.
        -- rewrite occurs_at_0. congruence.
        -- rewrite occurs_at_S. apply Hmin. lia.
Qed.

(** A split has one piece more than the string has separators, and no
    piece contains the separator. *)
Lemma split_pieces (sep : ascii) (s : string) :
  length (Str.split sep s) = S (StrExt.count_char sep s)
  ∧ Forall (λ piece, Str.has_char sep piece = false) (Str.split sep s).
Proof.
  induction s as [|c s [IHlen IHall]]; [split; [reflexivity | repeat constructor]|].
  cbn [Str.split StrExt.count_char].
  destruct (StrFacts.split_cons sep s) as (piece & rest & E). rewrite E in *.
  destruct (Ascii.eqb c sep) eqn:Hc.
  - split; [simpl in *; lia|]. constructor; [reflexivity | exact IHall].
  - split; [simpl in *; lia|]. inversion IHall as [|? ? Hpiece Hrest]; subst.
    constructor; [|exact Hrest]. simpl. now rewrite Hc, Hpiece.
Qed.

(** [find] answers -1 exactly when the key does not occur, and
    otherwise the lowest position at which it occurs. *)
Lemma find_lowest_index (s key : string) :
  (Str.find s key = (-1)%Z ∧ ¬ Spec.contains key s)
  ∨ ∃ i, Str.find s key = Z.of_nat i
         ∧ Notions.occurs_at key s i
         ∧ ∀ j, j < i → ¬ Notions.occurs_at key s j.
Proof.
  unfold Str.find. destruct (find_from_lowest key s 0) as [H|(i & Hf & H)].
  - now left.
  - right. exists i. split; [rewrite Hf; lia | exact H].
Qed.

(** Stripping twice is stripping once, and a string without white
    space at its ends is left as it is. *)
Lemma strip_idempotent (s : string) :
  Str.strip (Str.strip s) = Str.strip s
  ∧ (Spec.no_space_at_start s → Spec.no_space_at_end s → Str.strip s = s).
Proof.
  assert (Hfix : ∀ v, Spec.no_space_at_start v → Spec.no_space_at_end v → Str.strip v = v).
  { intros v Hstart Hend. unfold Str.strip.
    now rewrite (lstrip_fixed _ Hstart), (rstrip_fixed _ Hend). }
  split; [|apply Hfix].
  destruct (StrFacts.strip_trimmed s) as (_ & Hstart & Hend). now apply Hfix.
Qed.

Lemma has_char_app (c : ascii) (a b : string) :
  has_char c (a +:+ b) = has_char c a || has_char c b.
Proof. induction a as [|d a IH]; simpl; [reflexivity|]. now rewrite IH, orb_assoc. Qed.

End StrExtFacts.

(** ** The leak checkers *)

(** X1.  A line has a field exactly when it has a colon, and the field has
    no colon in it and no white space at its ends. *)
Theorem leak_field_clean (line : string) :
  ((∃ v, Leaks.field line = Ok v) ↔ Str.has_char colon line = true)
  ∧ ∀ v, Leaks.field line = Ok v →
      Str.has_char colon v = false
      ∧ Spec.no_space_at_start v ∧ Spec.no_space_at_end v.
Proof.
  split; [apply LeaksFacts.field_Ok_iff|]. unfold Leaks.field. intros v.
  destruct (Str.split colon line !! 1) as [piece|] eqn:E; [|discriminate].
  intros [= <-].
  destruct (StrFacts.strip_trimmed piece) as ((l & r & Hpiece & _) & Hstart & Hend).
  split; [|now split].
  destruct (StrExtFacts.split_pieces colon line) as [_ Hall].
  rewrite Forall_forall in Hall.
  assert (Hno : Str.has_char colon piece = false).
  { apply Hall. apply list_elem_of_lookup. now exists 1. }
  rewrite Hpiece, !StrExtFacts.has_char_app in Hno.
  apply orb_false_iff in Hno as [_ Hno]. now apply orb_false_iff in Hno as [Hno _].
Qed.

Lemma leak_field_clean_witness :
  ∃ v, Leaks.field "  definitely lost:   120 bytes : in 3 blocks" = Ok v
       ∧ Str.has_char colon v = false
       ∧ Spec.no_space_at_start v ∧ Spec.no_space_at_end v.
Proof.
  eexists. split; [reflexivity|].
  apply (leak_field_clean "  definitely lost:   120 bytes : in 3 blocks"). reflexivity.
Defined.

Module LeaksMoreFacts.
Import Str Spec Leaks.

Lemma summary0_keys (k : string) : is_Some (summary0 !! k) ↔ k ∈ keys.
Proof.
  unfold summary0, keys. rewrite !lookup_insert_is_Some', !elem_of_cons, elem_of_nil.
  pose proof (lookup_empty_is_Some (M := gmap string) (A := option string) k).
  intuition congruence.
Qed.

Lemma scan_keys_keeps_keys ks line (s s' : gmap string (option string)) :
  scan_keys ks line s = Ok s' →
  (∀ k, k ∈ ks → is_Some (s !! k)) →
  ∀ k, is_Some (s' !! k) ↔ is_Some (s !! k).
Proof.
  intros H Hks k. rewrite (LeaksFacts.scan_keys_lookup _ _ _ _ k H).
  destruct (bool_decide (k ∈ ks)) eqn:Hk; cbn [andb]; [|reflexivity].
  apply bool_decide_eq_true in Hk.
  destruct (find line k >=? 0)%Z; [|reflexivity].
  destruct (field line); [|reflexivity].
  split; [intros _; now apply Hks | intros _; now eexists].
Qed.

Lemma scan_lines_keeps_keys lines (s s' : gmap string (option string)) :
  scan_lines lines s = Ok s' →
  (∀ k, k ∈ keys → is_Some (s !! k)) →
  ∀ k, is_Some (s' !! k) ↔ is_Some (s !! k).
Proof.
  revert s. induction lines as [|line lines IH]; intros s; cbn [scan_lines].
  - now intros [= ->].
  - destruct (scan_keys keys line s) as [s1|] eqn:E; cbn [bind]; [|discriminate].
    intros H Hs k. pose proof (scan_keys_keeps_keys _ _ _ _ E Hs) as H1.
    rewrite (IH _ H); [apply H1|]. intros k' Hk'. apply H1. now apply Hs.
Qed.

Lemma display_loop_empty_field ks (summary : gmap string (option string)) key display :
  key ∈ ks → summary !! key = Some (Some EmptyString) →
  display_loop ks summary display = Raise IndexError.
Proof.
  intros Hin Hkey. revert display.
  induction Hin as [key ks|key k' ks Hin IH]; intros display; cbn [display_loop].
  - now rewrite Hkey.
  - destruct (summary !! k') as [[[|c output]|]|]; auto.
Qed.

(** The report after the loop: the entry of a name is the summary of the
    last query of that name, and the other entries are untouched. *)
Lemma profile_leaks_loop_lookup communicate shell count supp_file queries :
  ∀ n report report',
  profile_leaks_loop communicate n shell queries count supp_file report = Ok report' →
  (∀ i name query,
     queries !! i = Some (name, query) →
     (∀ j query', i < j → queries !! j ≠ Some (name, query')) →
     ∃ summary,
       check_leaks_linux communicate (n + i) shell (Str.repeat query count) supp_file
         = Ok summary
       ∧ report' !! name = Some summary)
  ∧ (∀ name, (∀ i query, queries !! i ≠ Some (name, query)) →
             report' !! name = report !! name).
Proof.
  induction queries as [|[name0 query0] queries IH]; intros n report report'.
  - intros [= ->]. split; [intros i name query Hi; discriminate | reflexivity].
  - cbn [profile_leaks_loop].
    destruct (check_leaks_linux communicate n shell _ supp_file) as [summary|] eqn:Hcheck;
      cbn [bind]; [|discriminate].
    destruct (display_loop keys summary []); cbn [bind]; [|discriminate].
    intros H. destruct (IH _ _ _ H) as [IHhit IHmiss]. split.
    + intros [|i] name query Hi Hlast.
      * injection Hi as -> ->. exists summary. rewrite Nat.add_0_r. split; [exact Hcheck|].
        rewrite IHmiss; [apply lookup_insert_eq|].
        intros i q. exact (Hlast (S i) q ltac:(lia)).
      * destruct (IHhit i name query Hi) as (s & Hs & Hr).
        -- intros j q Hj. apply (Hlast (S j) q). lia.
        -- exists s. rewrite <- Nat.add_succ_comm. now split.
    + intros name Hno. rewrite IHmiss by (intros i q; exact (Hno (S i) q)).
      apply lookup_insert_ne. intros ->. now apply (Hno 0 query0).
Qed.

End LeaksMoreFacts.

(** X2.  A summary that check_leaks_linux returns has the three keys
    "definitely", "indirectly", "possibly" and no other. *)
Theorem leak_summary_keys (stderr : string) (summary : gmap string (option string))
    (key : string) :
  Leaks.parse_stderr stderr = Ok summary →
  is_Some (summary !! key) ↔ key ∈ Leaks.keys.
Proof.
  intros [_ H]%LeaksFacts.parse_stderr_Ok. rewrite <- LeaksMoreFacts.summary0_keys.
  apply (LeaksMoreFacts.scan_lines_keeps_keys _ _ _ H).
  intros k. apply LeaksMoreFacts.summary0_keys.
Qed.

Lemma leak_summary_keys_witness :
  ∃ summary,
    Leaks.parse_stderr "possibly lost: 8 bytes" = Ok summary
    ∧ (is_Some (summary !! "definitely") ↔ "definitely" ∈ Leaks.keys).
Proof.
  eexists. split; [vm_compute; reflexivity|].
  apply (leak_summary_keys "possibly lost: 8 bytes"). vm_compute. reflexivity.
Defined.

(** X3.  When the summary of a query has an empty field (a line such as
    "definitely lost:" gives one), the display loop of profile_leaks reads
    the first character of the empty string, and profile_leaks ends with
    [IndexError]. *)
Theorem profile_leaks_empty_field (communicate : nat → string → string * string)
    (n : nat) (shell name query : string) (queries : list (string * string))
    (count : Z) (supp_file : option string)
    (report : gmap string (gmap string (option string)))
    (summary : gmap string (option string)) (key : string) :
  Leaks.check_leaks_linux communicate n shell (Str.repeat query count) supp_file
    = Ok summary →
  key ∈ Leaks.keys →
  summary !! key = Some (Some EmptyString) →
  Leaks.profile_leaks_loop communicate n shell ((name, query) :: queries) count
    supp_file report = Raise IndexError.
Proof.
  intros Hcheck Hkey Hempty. cbn [Leaks.profile_leaks_loop]. rewrite Hcheck. cbn [bind].
  now rewrite (LeaksMoreFacts.display_loop_empty_field _ _ key).
Qed.

Lemma profile_leaks_empty_field_witness :
  Leaks.profile_leaks (λ _ _, (EmptyString, "definitely lost:")) "./run"
    [("q1", "SELECT 1;"); ("q2", "SELECT 2;")] 1 None = Raise IndexError.
Proof.
  unfold Leaks.profile_leaks.
  eapply (profile_leaks_empty_field _ 0 "./run" "q1" "SELECT 1;" _ 1 None ∅ _ "definitely").
  - vm_compute. reflexivity.
  - apply list_elem_of_here.
  - reflexivity.
Defined.

(** X4.  In a report that profile_leaks returns, the entry of a query name
    is the summary of the leak check of the last query with that name, run
    on the query text repeated [count] times; names that are not among the
    queries have no entry. *)
Theorem profile_leaks_report (communicate : nat → string → string * string)
    (shell : string) (queries : list (string * string)) (count : Z)
    (supp_file : option string) (report : gmap string (gmap string (option string))) :
  Leaks.profile_leaks communicate shell queries count supp_file = Ok report →
  (∀ i name query,
     queries !! i = Some (name, query) →
     (∀ j query', i < j → queries !! j ≠ Some (name, query')) →
     ∃ summary,
       Leaks.check_leaks_linux communicate i shell (Str.repeat query count) supp_file
         = Ok summary
       ∧ report !! name = Some summary)
  ∧ (∀ name, (∀ i query, queries !! i ≠ Some (name, query)) → report !! name = None).
Proof.
  unfold Leaks.profile_leaks. intros H.
  destruct (LeaksMoreFacts.profile_leaks_loop_lookup _ _ _ _ _ _ _ _ H) as [Hhit Hmiss].
  split; [exact Hhit|]. intros name Hno. now rewrite (Hmiss name Hno).
Qed.

Lemma profile_leaks_report_witness :
  let communicate := λ (n : nat) (_ : string),
    (EmptyString, match n with 0 => "definitely lost: 16 bytes" | _ => "possibly lost: 8 bytes" end) in
  ∃ report summary,
    Leaks.profile_leaks communicate "./run" [("q1", "SELECT 1;"); ("q2", "SELECT 2;")] 2 None
      = Ok report
    ∧ Leaks.check_leaks_linux communicate 1 "./run" "SELECT 2;SELECT 2;" None = Ok summary
    ∧ report !! "q2" = Some summary
    ∧ report !! "q3" = None.
Proof.
  intros communicate. eexists.
  destruct (profile_leaks_report communicate "./run"
              [("q1", "SELECT 1;"); ("q2", "SELECT 2;")] 2 None _ eq_refl) as [Hhit Hmiss].
  destruct (Hhit 1 "q2" "SELECT 2;" eq_refl) as (summary & Hcheck & Hreport).
  - intros [|[|j]] q Hj; [lia | lia | discriminate].
  - exists summary. split; [reflexivity|]. split; [exact Hcheck|]. split; [exact Hreport|].
    apply Hmiss. intros [|[|i]] q; discriminate.
Defined.

(** X5.  In check_leaks_darwin, a line with "total leaked bytes" and no
    colon ends the scan of that output of the leaks tool: the value found
    so far is kept, and the lines after it are not looked at. *)
Theorem darwin_scan_stops_at_bad_line (pre post : list string) (bad : string)
    (leak_checks : option string) :
  Spec.contains "total leaked bytes" bad →
  Str.has_char colon bad = false →
  Leaks.scan_darwin (pre ++ bad :: post) leak_checks = Leaks.scan_darwin pre leak_checks.
Proof.
  intros Hc Hcolon. apply StrFacts.find_contains in Hc.
  assert (Hf : Leaks.field bad = Raise IndexError).
  { destruct (LeaksFacts.field_result bad) as [Hv|Hr]; [|exact Hr].
    apply LeaksFacts.field_Ok_iff in Hv. congruence. }
  revert leak_checks. induction pre as [|line pre IH]; intros leak_checks.
  - cbn [app Leaks.scan_darwin]. now rewrite Hc, Hf.
  - cbn [app Leaks.scan_darwin].
    destruct (Str.find line "total leaked bytes" >=? 0)%Z; [|apply IH].
    destruct (Leaks.field line); [apply IH | reflexivity].
Qed.

Lemma darwin_scan_stops_at_bad_line_witness :
  Leaks.scan_darwin
    ["total leaked bytes: 16"; "total leaked bytes"; "total leaked bytes: 32"] None
  = Some "16".
Proof.
  refine (eq_trans (darwin_scan_stops_at_bad_line ["total leaked bytes: 16"]
                      ["total leaked bytes: 32"] "total leaked bytes" None _ _) _).
  - exists EmptyString, EmptyString. reflexivity.
  - reflexivity.
  - reflexivity.
Defined.

Module DarwinFacts.
Import Leaks LeaksDarwin.

Lemma scan_output_eq (stdout : string) (leak_checks : option string) :
  scan_output stdout leak_checks =
    if Str.is_ascii stdout
    then scan_darwin (Str.split linefeed stdout) leak_checks
    else leak_checks.
Proof. unfold scan_output, decode_ascii. now destruct (Str.is_ascii stdout). Qed.

Lemma loop_until_exit (alive : nat → bool) (leaks_stdout : nat → string) (k : nat) :
  alive k = false →
  ∀ todo i fuel leak_checks,
  i + todo = k →
  (∀ j, i ≤ j < k → alive j = true) →
  todo < fuel →
  loop alive leaks_stdout fuel i leak_checks
    = Some (foldl (λ found j,
                     if Str.is_ascii (leaks_stdout j)
                     then scan_darwin (Str.split linefeed (leaks_stdout j)) found
                     else found)
              leak_checks (seq i todo)).
Proof.
  intros Hexit. induction todo as [|todo IH]; intros i fuel leak_checks Hk Halive Hfuel;
    (destruct fuel as [|fuel]; [lia|]); cbn [loop seq foldl].
  - replace i with k by lia. now rewrite Hexit.
  - rewrite (Halive i) by lia. rewrite scan_output_eq.
    apply IH; [lia | intros j Hj; apply Halive; lia | lia].
Qed.

End DarwinFacts.

(** X6.  On darwin, when the subprocess is alive at the first [k] tests of
    the loop and gone at the next one, check_leaks returns a summary with
    the single key "definitely", whose value is what the scans of the [k]
    outputs of the leaks tool leave, starting from null, an output that is
    not ASCII being skipped whole; the valgrind path is not taken and no
    exception is raised. *)
Theorem darwin_check_returns (alive : nat → bool) (leaks_stdout : nat → string)
    (communicate : nat → string → string * string) (k fuel n : nat)
    (shell query : string) (supp_file : option string) :
  (∀ j, j < k → alive j = true) →
  alive k = false →
  k < fuel →
  LeaksDarwin.check_leaks alive leaks_stdout "darwin" communicate fuel n shell query supp_file
    = Some (Ok {["definitely" :=
         foldl (λ found j,
                  if Str.is_ascii (leaks_stdout j)
                  then Leaks.scan_darwin (Str.split linefeed (leaks_stdout j)) found
                  else found)
           None (seq 0 k)]}).
Proof.
  intros Halive Hexit Hfuel. unfold LeaksDarwin.check_leaks, LeaksDarwin.check_leaks_darwin.
  cbn [String.eqb Ascii.eqb Bool.eqb].
  rewrite (DarwinFacts.loop_until_exit alive leaks_stdout k Hexit k 0 fuel None);
    [reflexivity | lia | intros j Hj; apply Halive; lia | exact Hfuel].
Qed.

Lemma darwin_check_returns_witness :
  let alive := λ i, i <? 2 in
  let leaks_stdout := λ i : nat,
    match i with
    | 0 => "total leaked bytes: 16"
    | _ => "total leaked bytes: 32 " +:+ String (ascii_of_nat 233) EmptyString
    end in
  ∃ summary,
    LeaksDarwin.check_leaks alive leaks_stdout "darwin" (λ _ _, (EmptyString, EmptyString))
      3 0 "./run" "SELECT 1;" None = Some (Ok summary)
    ∧ summary !! "definitely" = Some (Some "16")
    ∧ summary !! "possibly" = None.
Proof.
  intros alive leaks_stdout. eexists. split.
  - apply (darwin_check_returns alive leaks_stdout _ 2 3 0).
    + intros [|[|j]] Hj; [reflexivity | reflexivity | lia].
    + reflexivity.
    + lia.
  - split; reflexivity.
Defined.

(** ** run_query *)

Module PollMoreFacts.
Import Psutil Profile Spec.

(** What holds of the locals whenever the loop returns. *)
Lemma poll_returns (platform : string) (p : Process) (timeout : Z) :
  ∀ fuel i l l',
  poll fuel platform p timeout i l = Some (Ok l') →
  (delay l == Z.of_nat i # 2)%Q →
  length (percents l) = i →
  killed l = false →
  (∀ stats, l_stats l = Some stats →
     ∃ k, i = S k ∧ get_stats platform p k step = Ok stats) →
  (delay l' == Z.of_nat (length (percents l')) # 2)%Q
  ∧ ((timeout <= 0)%Z → killed l' = false)
  ∧ (∀ stats, l_stats l' = Some stats →
       ∃ k, length (percents l') = S k ∧ get_stats platform p k step = Ok stats).
Proof.
  induction fuel as [|fuel IH]; intros i l l'; [discriminate|]. cbn [poll].
  intros H Hdelay Hlen Hkilled Hstats.
  assert (Hstop : Some (Ok l) = Some (Ok l') →
    (delay l' == Z.of_nat (length (percents l')) # 2)%Q
    ∧ ((timeout <= 0)%Z → killed l' = false)
    ∧ (∀ stats, l_stats l' = Some stats →
         ∃ k, length (percents l') = S k ∧ get_stats platform p k step = Ok stats)).
  { intros [= <-]. rewrite Hlen. split; [exact Hdelay|]. split; [now intros _|].
    intros stats Hs. destruct (Hstats stats Hs) as (k & -> & Hk). now exists k. }
  destruct (is_running p i); cbn [negb] in H; [|now apply Hstop].
  destruct (get_stats platform p i step) as [stats|e] eqn:Hget.
  2:{ destruct e; try discriminate. now apply Hstop. }
  assert (Hnext : (delay l + step == Z.of_nat (S i) # 2)%Q).
  { rewrite Hdelay. apply PollFacts.half_succ. }
  assert (Hlen' : length (percents l ++ [utilization stats]) = S i).
  { rewrite length_app. simpl. lia. }
  cbn [delay percents l_stats] in H.
  destruct ((0 <? timeout)%Z && _) eqn:Hkill.
  - injection H as <-. cbn [delay percents l_stats killed]. rewrite Hlen'.
    split; [exact Hnext|]. split.
    + intros Hle. apply andb_true_iff in Hkill as [Hpos _]. apply Z.ltb_lt in Hpos. lia.
    + intros st [= <-]. now exists i.
  - apply (IH _ _ _ H); cbn [delay percents l_stats killed]; try assumption.
    intros st [= <-]. now exists i.
Qed.

(** The loop runs through polls that give a sample, as long as the timeout
    does not strike. *)
Lemma poll_skip (platform : string) (p : Process) (timeout : Z) (k : nat) :
  ((timeout <= 0)%Z ∨ k < polls_until_kill timeout) →
  ∀ todo i fuel l,
  i + todo = k →
  (∀ j, i ≤ j < k → is_running p j = true ∧ ∃ stats, get_stats platform p j step = Ok stats) →
  (delay l == Z.of_nat i # 2)%Q →
  ∃ l_k,
    poll (todo + fuel) platform p timeout i l = poll fuel platform p timeout k l_k
    ∧ (delay l_k == Z.of_nat k # 2)%Q
    ∧ length (percents l_k) = length (percents l) + todo
    ∧ killed l_k = killed l
    ∧ (0 < todo → is_Some (l_stats l_k))
    ∧ (todo = 0 → l_k = l).
Proof.
  intros Hnokill. induction todo as [|todo IH]; intros i fuel l Hk Hgood Hdelay.
  - exists l. replace k with i by lia. cbn [Nat.add].
    repeat split; try done. lia.
  - cbn [Nat.add poll]. destruct (Hgood i) as [Hrun [stats Hget]]; [lia|].
    rewrite Hrun, Hget. cbn [negb delay].
    assert (Hnext : (delay l + step == Z.of_nat (S i) # 2)%Q).
    { rewrite Hdelay. apply PollFacts.half_succ. }
    assert (Hcmp : (0 <? timeout)%Z && Qle_bool (inject_Z (timeout + 2)) (delay l + step) = false).
    { destruct (0 <? timeout)%Z eqn:Hpos; [|reflexivity]. apply Z.ltb_lt in Hpos. cbn [andb].
      destruct (Qle_bool _ _) eqn:E; [|reflexivity]. apply Qle_bool_iff in E.
      rewrite Hnext, PollFacts.deadline_le_half in E.
      unfold polls_until_kill in Hnokill. lia. }
    rewrite Hcmp.
    destruct (IH (S i) fuel
                {| delay := (delay l + step)%Q;
                   percents := percents l ++ [utilization stats];
                   l_stats := Some stats; killed := killed l |})
      as (l_k & Hpoll & Hd & Hlen & Hkilled & Hsome & Hsame);
      [lia | intros j Hj; apply Hgood; lia | exact Hnext |].
    cbn [percents killed] in Hlen, Hkilled. rewrite length_app in Hlen. simpl in Hlen.
    exists l_k. split; [exact Hpoll|]. split; [exact Hd|]. split; [lia|].
    split; [exact Hkilled|]. split; [|lia]. intros _.
    destruct todo as [|todo]; [|apply Hsome; lia]. rewrite Hsame by reflexivity. now eexists.
Qed.

End PollMoreFacts.

(** X7.  In every result that run_query returns, the memory, fds,
    user_time and system_time fields are those of the last sample taken. *)
Theorem result_from_last_sample (platform : string)
    (Popen : nat → list string → Psutil.Process) (fuel n : nat)
    (shell query : string) (timeout count : Z) (result : gmap string Q) :
  Profile.run_query platform Popen fuel n shell query timeout count = Some (Ok result) →
  let p := Popen n (Profile.argv shell query count) in
  ∃ l k stats,
    Profile.poll fuel platform p timeout 0 Profile.locals0 = Some (Ok l)
    ∧ length (Profile.percents l) = S k
    ∧ Profile.get_stats platform p k Profile.step = Ok stats
    ∧ result !! "memory" = Some (inject_Z (Psutil.rss (Profile.memory stats)))
    ∧ result !! "fds" = Some (inject_Z (Profile.fds stats))
    ∧ result !! "user_time" = Some (Psutil.user (Profile.s_cpu_times stats))
    ∧ result !! "system_time" = Some (Psutil.system (Profile.s_cpu_times stats)).
Proof.
  intros H p. destruct (RunFacts.run_query_Ok _ _ _ _ _ _ _ _ _ H) as (l & stats & Hl & Hs & Hr).
  fold p in Hl, Hr.
  destruct (PollMoreFacts.poll_returns _ _ _ _ _ _ _ Hl) as (_ & _ & Hlast);
    try reflexivity; [discriminate|].
  destruct (Hlast stats Hs) as (k & Hk & Hget).
  exists l, k, stats. split; [exact Hl|]. split; [exact Hk|]. split; [exact Hget|].
  unfold Profile.build_result in Hr. rewrite Hs in Hr. injection Hr as <-.
  repeat split.
Qed.

Lemma result_from_last_sample_witness :
  ∃ result,
    Profile.run_query "linux" (λ _ _, Scenario.sampled [10; 20; 30]%Q)
      4 0 "./run" "SELECT 1;" 0 1 = Some (Ok result)
    ∧ result !! "user_time" = Some (3 # 10)%Q
    ∧ result !! "memory" = Some 4096%Q.
Proof.
  eexists.
  destruct (result_from_last_sample "linux" (λ _ _, Scenario.sampled [10; 20; 30]%Q)
              4 0 "./run" "SELECT 1;" 0 1 _ eq_refl)
    as (l & k & stats & Hl & Hk & Hget & Hmem & _ & Huser & _).
  split; [reflexivity|].
  vm_compute in Hl. injection Hl as <-. cbn in Hk. injection Hk as <-.
  vm_compute in Hget. injection Hget as <-.
  split; [exact Huser | exact Hmem].
Defined.

(** X8.  Whenever the polling loop returns, the delay it has accumulated is
    half a second for each sample collected: the timeout counts samples,
    not the time that has passed. *)
Theorem delay_counts_samples (platform : string) (p : Psutil.Process)
    (timeout : Z) (fuel : nat) (l : Profile.locals) :
  Profile.poll fuel platform p timeout 0 Profile.locals0 = Some (Ok l) →
  (Profile.delay l == Z.of_nat (length (Profile.percents l)) # 2)%Q.
Proof.
  intros H. now destruct (PollMoreFacts.poll_returns _ _ _ _ _ _ _ H) as (Hd & _);
    try reflexivity.
Qed.

Lemma delay_counts_samples_witness :
  ∃ l, Profile.poll 4 "linux" (Scenario.sampled [10; 20; 30]%Q) 0 0 Profile.locals0
         = Some (Ok l)
       ∧ (Profile.delay l == 3 # 2)%Q.
Proof.
  eexists. split; [vm_compute; reflexivity|].
  refine (delay_counts_samples "linux" (Scenario.sampled [10; 20; 30]%Q) 0 4 _ _).
  vm_compute. reflexivity.
Defined.

(** X9.  When the first [k] polls give a sample, [k] being at least one and
    too few for the timeout to strike, and at the next poll the process
    has exited or access is denied, run_query returns a result, built from
    exactly [k] samples, without having killed the subprocess. *)
Theorem run_query_returns (platform : string)
    (Popen : nat → list string → Psutil.Process) (fuel n k : nat)
    (shell query : string) (timeout count : Z) :
  let p := Popen n (Profile.argv shell query count) in
  (∀ j, j < k → Psutil.is_running p j = true
                ∧ ∃ stats, Profile.get_stats platform p j Profile.step = Ok stats) →
  0 < k →
  (timeout <= 0)%Z ∨ k < Spec.polls_until_kill timeout →
  Psutil.is_running p k = false
    ∨ Profile.get_stats platform p k Profile.step = Raise AccessDenied →
  k < fuel →
  ∃ l result,
    Profile.poll fuel platform p timeout 0 Profile.locals0 = Some (Ok l)
    ∧ length (Profile.percents l) = k
    ∧ Profile.killed l = false
    ∧ Profile.run_query platform Popen fuel n shell query timeout count = Some (Ok result).
Proof.
  intros p Hgood Hk Hnokill Hstop Hfuel.
  destruct (PollMoreFacts.poll_skip platform p timeout k Hnokill k 0 (fuel - k) Profile.locals0)
    as (l_k & Hpoll & _ & Hlen & Hkilled & Hsome & _);
    [lia | intros j Hj; apply Hgood; lia | reflexivity |].
  replace (k + (fuel - k)) with fuel in Hpoll by lia.
  assert (Hend : Profile.poll (fuel - k) platform p timeout k l_k = Some (Ok l_k)).
  { destruct (fuel - k) as [|f] eqn:E; [lia|]. cbn [Profile.poll].
    destruct (Psutil.is_running p k); cbn [negb]; [|reflexivity].
    destruct Hstop as [Hstop|Hstop]; [discriminate | now rewrite Hstop]. }
  rewrite Hend in Hpoll. destruct (Hsome Hk) as [stats Hstats].
  exists l_k. eexists. split; [exact Hpoll|]. split; [exact Hlen|]. split; [exact Hkilled|].
  unfold Profile.run_query. fold p. rewrite Hpoll. cbn [fbind].
  unfold Profile.build_result. now rewrite Hstats.
Qed.

Lemma run_query_returns_witness :
  ∃ l result,
    Profile.poll 3 "linux" (Scenario.sampled [10; 20]%Q) 5 0 Profile.locals0 = Some (Ok l)
    ∧ length (Profile.percents l) = 2
    ∧ Profile.killed l = false
    ∧ Profile.run_query "linux" (λ _ _, Scenario.sampled [10; 20]%Q) 3 0
        "./run" "SELECT 1;" 5 1 = Some (Ok result).
Proof.
  apply (run_query_returns "linux" (λ _ _, Scenario.sampled [10; 20]%Q) 3 0 2
           "./run" "SELECT 1;" 5 1).
  - intros [|[|j]] Hj; [split; [reflexivity | eexists; reflexivity]..| lia].
  - lia.
  - right. vm_compute. lia.
  - left. reflexivity.
  - lia.
Defined.

(** X10.  Only [AccessDenied] is caught by the loop: when a poll raises
    another exception, the earlier polls having given samples, run_query
    ends with that exception. *)
Theorem other_exception_propagates (platform : string)
    (Popen : nat → list string → Psutil.Process) (fuel n k : nat)
    (shell query : string) (timeout count : Z) (e : exn) :
  let p := Popen n (Profile.argv shell query count) in
  (∀ j, j < k → Psutil.is_running p j = true
                ∧ ∃ stats, Profile.get_stats platform p j Profile.step = Ok stats) →
  (timeout <= 0)%Z ∨ k < Spec.polls_until_kill timeout →
  Psutil.is_running p k = true →
  Profile.get_stats platform p k Profile.step = Raise e →
  e ≠ AccessDenied →
  k < fuel →
  Profile.run_query platform Popen fuel n shell query timeout count = Some (Raise e).
Proof.
  intros p Hgood Hnokill Hrun Hget He Hfuel.
  destruct (PollMoreFacts.poll_skip platform p timeout k Hnokill k 0 (fuel - k) Profile.locals0)
    as (l_k & Hpoll & _); [lia | intros j Hj; apply Hgood; lia | reflexivity |].
  replace (k + (fuel - k)) with fuel in Hpoll by lia.
  unfold Profile.run_query. fold p. rewrite Hpoll.
  destruct (fuel - k) as [|f] eqn:E; [lia|]. cbn [Profile.poll].
  rewrite Hrun, Hget. cbn [negb]. now destruct e.
Qed.

Lemma other_exception_propagates_witness :
  Profile.run_query "linux" (λ _ _, MoreScenarios.vanishing 1) 2 0 "./run" "SELECT 1;" 0 1
    = Some (Raise NoSuchProcess).
Proof.
  apply (other_exception_propagates "linux" (λ _ _, MoreScenarios.vanishing 1) 2 0 1).
  - intros [|j] Hj; [split; [reflexivity | eexists; reflexivity] | lia].
  - left. lia.
  - reflexivity.
  - reflexivity.
  - discriminate.
  - lia.
Defined.

(** X11.  With a timeout of zero or less the loop never kills the
    subprocess, and a subprocess that keeps running and keeps giving samples
    is polled for as long as there is fuel: the loop does not end. *)
Theorem no_timeout_no_kill (platform : string) (p : Psutil.Process)
    (timeout : Z) (fuel : nat) :
  (timeout <= 0)%Z →
  (∀ l, Profile.poll fuel platform p timeout 0 Profile.locals0 = Some (Ok l) →
        Profile.killed l = false)
  ∧ ((∀ j, Psutil.is_running p j = true
           ∧ ∃ stats, Profile.get_stats platform p j Profile.step = Ok stats) →
     Profile.poll fuel platform p timeout 0 Profile.locals0 = None).
Proof.
  intros Htimeout. split.
  - intros l H. destruct (PollMoreFacts.poll_returns _ _ _ _ _ _ _ H) as (_ & Hk & _);
      try reflexivity; [discriminate|]. now apply Hk.
  - intros Hgood.
    destruct (PollMoreFacts.poll_skip platform p timeout fuel (or_introl Htimeout)
                fuel 0 0 Profile.locals0) as (l_k & Hpoll & _);
      [lia | intros j _; apply Hgood | reflexivity |].
    rewrite Nat.add_0_r in Hpoll. now rewrite Hpoll.
Qed.

Lemma no_timeout_no_kill_witness :
  Profile.poll 50 "linux" Scenario.forever 0 0 Profile.locals0 = None.
Proof.
  apply (no_timeout_no_kill "linux" Scenario.forever 0 50); [lia|].
  intros j. split; [reflexivity | eexists; reflexivity].
Defined.

(** X13.  A sample equal to zero does not change the utilization, wherever
    in the list it is. *)
Theorem avg_utilization_ignores_zero (before after : list Q) (z : Q) :
  (z == 0)%Q →
  Profile.avg_utilization (before ++ z :: after) = Profile.avg_utilization (before ++ after).
Proof.
  intros Hz. unfold Profile.avg_utilization. rewrite !List.filter_app. cbn [List.filter].
  now rewrite (Qeq_eq_bool _ _ Hz).
Qed.

Lemma avg_utilization_ignores_zero_witness :
  Profile.avg_utilization ([10; 20] ++ 0 :: [30])%Q = Profile.avg_utilization ([10; 20] ++ [30])%Q.
Proof. apply (avg_utilization_ignores_zero [10; 20]%Q [30]%Q 0%Q). reflexivity. Defined.

(** X14.  On darwin get_stats does not read the I/O counters: a failure of
    io_counters, which makes get_stats fail elsewhere, does not show, and
    the counters entry is null. *)
Theorem get_stats_darwin_skips_io_counters (platform : string) (p : Psutil.Process)
    (i : nat) (interval : Q) (e : exn) (u : Q) (f : Z)
    (t : Psutil.cputimes) (m : Psutil.meminfo) :
  Psutil.cpu_percent p i interval = Ok u →
  Psutil.io_counters p i = Raise e →
  Psutil.num_fds p i = Ok f →
  Psutil.cpu_times p i = Ok t →
  Psutil.memory_info_ex p i = Ok m →
  Profile.get_stats platform p i interval =
    if String.eqb platform "darwin"
    then Ok {| Profile.utilization := u; Profile.counters := None; Profile.fds := f;
               Profile.s_cpu_times := t; Profile.memory := m |}
    else Raise e.
Proof.
  intros Hu Hio Hf Ht Hm. unfold Profile.get_stats. rewrite Hu, Hio, Hf, Ht, Hm.
  now destruct (String.eqb platform "darwin").
Qed.

Lemma get_stats_darwin_skips_io_counters_witness :
  (∃ stats, Profile.get_stats "darwin" MoreScenarios.no_io_counters 0 Profile.step = Ok stats
            ∧ Profile.counters stats = None)
  ∧ Profile.get_stats "linux" MoreScenarios.no_io_counters 0 Profile.step = Raise AccessDenied.
Proof.
  split.
  - eexists. split.
    + exact (get_stats_darwin_skips_io_counters "darwin" MoreScenarios.no_io_counters 0
               Profile.step AccessDenied _ _ _ _ eq_refl eq_refl eq_refl eq_refl eq_refl).
    + reflexivity.
  - exact (get_stats_darwin_skips_io_counters "linux" MoreScenarios.no_io_counters 0
             Profile.step AccessDenied _ _ _ _ eq_refl eq_refl eq_refl eq_refl eq_refl).
Defined.

(** ** summary *)

Module RankMoreFacts.
Import Profile Spec Notions.

(** The entries of [RANGES]. *)
Lemma RANGES_entries (key : string) (entry : range_entry) :
  RANGES !! key = Some entry →
  (key = "colors" ∧ entry = Colors [blue; green; yellow; red])
  ∨ (key ∈ metrics ∧ ∃ t0 t1 t2, entry = Thresholds [t0; t1; t2]
                                 ∧ (t0 < t1)%Q ∧ (t1 < t2)%Q).
Proof.
  intros H. apply elem_of_list_to_map_2 in H.
  rewrite !elem_of_cons, elem_of_nil in H.
  destruct H as [H|[H|[H|[H|[H|[H|[]]]]]]]; injection H as -> ->;
    [left; now split | right; (split; [vm_compute; repeat constructor|]);
     eexists _, _, _; (split; [reflexivity|]); split; reflexivity ..].
Qed.

Lemma passed_none (value : Q) (ts : list Q) (t : Q) :
  ascending (t :: ts) → (value < t)%Q → passed value (t :: ts) = 0.
Proof.
  unfold passed. revert t. induction ts as [|t' ts IH]; intros t [Hlt Hasc] Hv.
  - cbn [List.filter]. destruct (Qle_bool t value) eqn:E; [|reflexivity].
    apply Qle_bool_iff in E. exfalso. eapply Qlt_irrefl, Qlt_le_trans; eassumption.
  - cbn [List.filter] in IH |- *. destruct (Qle_bool t value) eqn:E.
    + apply Qle_bool_iff in E. exfalso. eapply Qlt_irrefl, Qlt_le_trans; eassumption.
    + apply (IH t' Hasc). eapply Qlt_trans; eassumption.
Qed.

Lemma rank_loop_passed (value : Q) (ranges rest : list Q) (i : nat) :
  ascending rest →
  i + length rest = length ranges →
  rank_loop i value rest ranges = i + passed value rest.
Proof.
  revert i. induction rest as [|r rest IH]; intros i Hasc Hlen; cbn [rank_loop].
  - simpl in Hlen. unfold passed. simpl. lia.
  - destruct (Qltb value r) eqn:E.
    + apply RankFacts.Qltb_lt in E. rewrite (passed_none _ _ _ Hasc E). lia.
    + apply RankFacts.Qltb_ge in E. destruct Hasc as [_ Hasc].
      rewrite IH; [|exact Hasc|simpl in Hlen; lia].
      unfold passed. cbn [List.filter]. apply Qle_bool_iff in E. rewrite E. simpl. lia.
Qed.

End RankMoreFacts.

(** X15.  Every rank that summary writes is a valid index into the tuple of
    colour functions, so the coloured display of a summary never indexes
    out of range. *)
Theorem rank_indexes_a_colour (result : gmap string Q) (key : string) (v : nat) :
  Profile.summary_result result !! key = Some v →
  ∃ cs colour, RANGES !! "colors" = Some (Colors cs) ∧ cs !! v = Some colour.
Proof.
  rewrite RankFacts.summary_result_lookup. intros H.
  destruct (RANGES !! key) as [entry|] eqn:E; [|discriminate]. cbn in H.
  destruct (RankMoreFacts.RANGES_entries _ _ E) as [[-> ->]|(_ & t0 & t1 & t2 & -> & _)];
    [discriminate|].
  destruct (String.eqb key "colors"); [discriminate|].
  destruct (result !! key) as [value|]; [|discriminate]. injection H as <-.
  destruct (RankFacts.rank_first_below value [t0; t1; t2]) as (Hlen & _).
  exists [blue; green; yellow; red]. simpl in Hlen.
  destruct (lookup_lt_is_Some_2 [blue; green; yellow; red]
              (Profile.rank value [t0; t1; t2])) as [colour Hc]; [simpl; lia|].
  exists colour. split; [reflexivity | exact Hc].
Qed.

Lemma rank_indexes_a_colour_witness :
  ∃ cs colour, RANGES !! "colors" = Some (Colors cs) ∧ cs !! 3 = Some colour.
Proof.
  apply (rank_indexes_a_colour {["fds" := 64%Q]} "fds" 3). reflexivity.
Defined.

(** X16.  The summary of a result of run_query ranks the five metrics
    utilization, cpu_time, memory, fds and duration, and nothing else:
    user_time and system_time are not ranked. *)
Theorem summary_of_result_keys (platform : string)
    (Popen : nat → list string → Psutil.Process) (fuel n : nat)
    (shell query : string) (timeout count : Z) (result : gmap string Q) (key : string) :
  Profile.run_query platform Popen fuel n shell query timeout count = Some (Ok result) →
  is_Some (Profile.summary_result result !! key) ↔ key ∈ Spec.metrics.
Proof.
  intros H. rewrite RankFacts.summary_result_lookup. split.
  - intros [v Hv]. destruct (RANGES !! key) as [entry|] eqn:E; [|discriminate].
    destruct (RankMoreFacts.RANGES_entries _ _ E) as [[-> ->]|[Hk _]]; [discriminate | exact Hk].
  - intros Hk. destruct (RankFacts.metric_thresholds key Hk) as (Hc & ts & ->). cbn.
    rewrite Hc.
    destruct (proj2 (AggregateFacts.run_query_fields _ _ _ _ _ _ _ _ _ key H)) as [value ->];
      [|now eexists].
    revert Hk. unfold Spec.metrics, Spec.result_fields.
    rewrite !elem_of_cons, !elem_of_nil. intuition.
Qed.

Lemma summary_of_result_keys_witness :
  ∃ result,
    Profile.run_query "linux" (λ _ _, Scenario.sampled [10; 20]%Q) 3 0
      "./run" "SELECT 1;" 0 1 = Some (Ok result)
    ∧ (is_Some (Profile.summary_result result !! "user_time") ↔ "user_time" ∈ Spec.metrics).
Proof.
  eexists. split; [reflexivity|].
  apply (summary_of_result_keys "linux" (λ _ _, Scenario.sampled [10; 20]%Q) 3 0
           "./run" "SELECT 1;" 0 1). reflexivity.
Defined.

(** X17.  The thresholds of every metric grow from left to right, and the
    rank of a value is the number of thresholds that are at most the
    value. *)
Theorem rank_counts_passed_thresholds (metric : string) (ts : list Q) (value : Q) :
  RANGES !! metric = Some (Thresholds ts) →
  Notions.ascending ts ∧ Profile.rank value ts = Notions.passed value ts.
Proof.
  intros H.
  assert (Hasc : Notions.ascending ts).
  { destruct (RankMoreFacts.RANGES_entries _ _ H) as [[_ [=]]|(_ & t0 & t1 & t2 & [= ->] & H01 & H12)].
    simpl. tauto. }
  split; [exact Hasc|]. unfold Profile.rank.
  now rewrite (RankMoreFacts.rank_loop_passed value ts ts 0 Hasc).
Qed.

Lemma rank_counts_passed_thresholds_witness :
  Notions.ascending [8; 20; 50]%Q
  ∧ Profile.rank 25 [8; 20; 50]%Q = Notions.passed 25 [8; 20; 50]%Q.
Proof. apply (rank_counts_passed_thresholds "utilization"). reflexivity. Defined.

(** ** profile *)

Module ProfileMoreFacts.
Import Psutil Profile Spec.

Section World.
Variable platform : string.
Variable Popen : nat → list string → Process.

Lemma rounds_loop_raise fuel shell query timeout count (e : exn) :
  ∀ k n todo results,
  (∀ i, i < k → ∃ r, run_query platform Popen fuel (n + i) shell query timeout count
                       = Some (Ok r)) →
  run_query platform Popen fuel (n + k) shell query timeout count = Some (Raise e) →
  k < todo →
  rounds_loop platform Popen fuel n shell query timeout count todo results = Some (Raise e).
Proof.
  induction k as [|k IH]; intros n todo results Hok Hraise Hk;
    (destruct todo as [|todo]; [lia|]); cbn [rounds_loop].
  - rewrite Nat.add_0_r in Hraise. now rewrite Hraise.
  - destruct (Hok 0) as [r Hr]; [lia|]. rewrite Nat.add_0_r in Hr. rewrite Hr. cbn [fbind].
    apply IH; [|now rewrite Nat.add_succ_comm | lia].
    intros i Hi. rewrite Nat.add_succ_comm. apply Hok. lia.
Qed.


Lemma profile_loop_lookup fuel shell timeout count rounds queries :
  ∀ n report0 report,
  profile_loop platform Popen fuel n shell queries timeout count rounds report0
    = Some (Ok report) →
  (∀ j name query,
     queries !! j = Some (name, query) →
     (∀ j' query', j < j' → queries !! j' ≠ Some (name, query')) →
     ∃ average_results,
       profile_query platform Popen fuel (n + j * Z.to_nat rounds) shell query
         timeout count rounds = Some (Ok average_results)
       ∧ report !! name = Some average_results)
  ∧ (∀ name, (∀ j query, queries !! j ≠ Some (name, query)) →
             report !! name = report0 !! name).
Proof.
  induction queries as [|[name0 query0] queries IH]; intros n report0 report.
  - intros [= ->]. split; [intros j name query Hj; discriminate | reflexivity].
  - cbn [profile_loop].
    destruct (profile_query platform Popen fuel n shell query0 timeout count rounds)
      as [[avg|e]|] eqn:Hq; cbn [fbind]; try discriminate.
    intros H. destruct (IH _ _ _ H) as [IHhit IHmiss]. split.
    + intros [|j] name query Hj Hlast.
      * injection Hj as -> ->. exists avg. rewrite Nat.add_0_r. split; [exact Hq|].
        rewrite IHmiss; [apply lookup_insert_eq|].
        intros j q. exact (Hlast (S j) q ltac:(lia)).
      * destruct (IHhit j name query Hj) as (a & Ha & Hr).
        -- intros j' q Hj'. apply (Hlast (S j') q). lia.
        -- exists a. split; [|exact Hr].
           replace (n + S j * Z.to_nat rounds) with (n + Z.to_nat rounds + j * Z.to_nat rounds)
             by lia. exact Ha.
    + intros name Hno. rewrite IHmiss by (intros j q; exact (Hno (S j) q)).
      apply lookup_insert_ne. intros ->. now apply (Hno 0 query0).
Qed.

End World.

End ProfileMoreFacts.

(** X18.  profile does not isolate failures: when a round of a query
    ends with an exception, the rounds before it having returned, the
    averaging of that query and the whole batch started with it end with
    the same exception, and no report is returned. *)
Theorem profile_aborts_on_failed_round (platform : string)
    (Popen : nat → list string → Psutil.Process) (fuel n k : nat)
    (shell name query : string) (rest : list (string * string))
    (timeout count rounds : Z) (report : gmap string (gmap string Q)) (e : exn) :
  (∀ i, i < k →
     ∃ r, Profile.run_query platform Popen fuel (n + i) shell query timeout count
            = Some (Ok r)) →
  Profile.run_query platform Popen fuel (n + k) shell query timeout count
    = Some (Raise e) →
  k < Z.to_nat rounds →
  Profile.profile_query platform Popen fuel n shell query timeout count rounds
    = Some (Raise e)
  ∧ Profile.profile_loop platform Popen fuel n shell ((name, query) :: rest)
      timeout count rounds report = Some (Raise e).
Proof.
  intros Hok Hraise Hk.
  assert (Hq : Profile.profile_query platform Popen fuel n shell query timeout count rounds
               = Some (Raise e)).
  { unfold Profile.profile_query.
    now rewrite (ProfileMoreFacts.rounds_loop_raise platform Popen fuel shell query
                   timeout count e k n _ ∅ Hok Hraise Hk). }
  split; [exact Hq|]. cbn [Profile.profile_loop]. now rewrite Hq.
Qed.

Lemma profile_aborts_on_failed_round_witness :
  let Popen := λ (n : nat) (_ : list string),
    match n with 0 => Scenario.sampled [10]%Q | _ => Scenario.exited end in
  Profile.profile "linux" Popen 3 "./run" [("q1", "SELECT 1;"); ("q2", "SELECT 2;")] 0 1 2
    = Some (Raise (UnboundLocalError "stats")).
Proof.
  intros Popen. unfold Profile.profile.
  apply (profile_aborts_on_failed_round "linux" Popen 3 0 1 "./run" "q1" "SELECT 1;"
           [("q2", "SELECT 2;")] 0 1 2 ∅ (UnboundLocalError "stats")).
  - intros [|i] Hi; [eexists; reflexivity | lia].
  - reflexivity.
  - vm_compute. lia.
Defined.



(** X20.  In a report that profile returns, the entry of a query name is
    the averaged result of the last query with that name, whose rounds run
    on the subprocesses that follow those of the queries before it; names
    that are not among the queries have no entry. *)
Theorem profile_report (platform : string)
    (Popen : nat → list string → Psutil.Process) (fuel : nat) (shell : string)
    (queries : list (string * string)) (timeout count rounds : Z)
    (report : gmap string (gmap string Q)) :
  Profile.profile platform Popen fuel shell queries timeout count rounds = Some (Ok report) →
  (∀ j name query,
     queries !! j = Some (name, query) →
     (∀ j' query', j < j' → queries !! j' ≠ Some (name, query')) →
     ∃ average_results,
       Profile.profile_query platform Popen fuel (j * Z.to_nat rounds) shell query
         timeout count rounds = Some (Ok average_results)
       ∧ report !! name = Some average_results)
  ∧ (∀ name, (∀ j query, queries !! j ≠ Some (name, query)) → report !! name = None).
Proof.
  unfold Profile.profile. intros H.
  destruct (ProfileMoreFacts.profile_loop_lookup _ _ _ _ _ _ _ _ _ _ _ H) as [Hhit Hmiss].
  split; [exact Hhit|]. intros name Hno. now rewrite (Hmiss name Hno).
Qed.

Lemma profile_report_witness :
  let Popen := λ (n : nat) (_ : list string),
    Scenario.sampled (match n with 0 => [10]%Q | _ => [30]%Q end) in
  ∃ report average_results,
    Profile.profile "linux" Popen 3 "./run" [("q1", "SELECT 1;"); ("q2", "SELECT 2;")] 0 1 1
      = Some (Ok report)
    ∧ Profile.profile_query "linux" Popen 3 1 "./run" "SELECT 2;" 0 1 1
      = Some (Ok average_results)
    ∧ report !! "q2" = Some average_results.
Proof.
  intros Popen. eexists.
  destruct (profile_report "linux" Popen 3 "./run"
              [("q1", "SELECT 1;"); ("q2", "SELECT 2;")] 0 1 1 _ eq_refl) as [Hhit _].
  destruct (Hhit 1 "q2" "SELECT 2;" eq_refl) as (a & Ha & Hr).
  - intros [|[|j]] q Hj; [lia | lia | discriminate].
  - exists a. split; [reflexivity|]. split; [exact Ha | exact Hr].
Defined.

(** ** queries_from_config *)

Module ConfigFacts.
Import Discovery Notions.

Lemma config_loop_lookup scheduled :
  ∀ queries0 queries,
  config_loop scheduled queries0 = inr queries →
  (∀ i q name text,
     scheduled !! i = Some q → q !! "name" = Some name → q !! "query" = Some text →
     (∀ j q', i < j → scheduled !! j = Some q' → q' !! "name" ≠ Some name) →
     queries !! name = Some text)
  ∧ (∀ name, (∀ q, q ∈ scheduled → q !! "name" ≠ Some name) →
             queries !! name = queries0 !! name).
Proof.
  induction scheduled as [|q0 scheduled IH]; intros queries0 queries.
  - intros [= ->]. split; [intros i q name text Hi; discriminate | reflexivity].
  - cbn [config_loop].
    destruct (q0 !! "query") as [text0|] eqn:Hq; [|discriminate].
    destruct (q0 !! "name") as [name0|] eqn:Hn; [|discriminate].
    intros H. destruct (IH _ _ H) as [IHhit IHmiss]. split.
    + intros [|i] q name text Hi Hname Htext Hlast.
      * injection Hi as <-. rewrite IHmiss.
        -- rewrite Hname in Hn. rewrite Htext in Hq. injection Hn as <-. injection Hq as <-.
           apply lookup_insert_eq.
        -- intros q' [j Hj]%list_elem_of_lookup. apply (Hlast (S j) q'); [lia | exact Hj].
      * apply (IHhit i q name text Hi Hname Htext).
        intros j q' Hj. apply (Hlast (S j) q'). lia.
    + intros name Hno. rewrite IHmiss.
      * apply lookup_insert_ne. intros ->. apply (Hno q0); [apply list_elem_of_here | exact Hn].
      * intros q Hq'. apply Hno. now apply list_elem_of_further.
Qed.

Lemma config_loop_complete scheduled :
  ∀ queries0, Forall complete scheduled → ∃ queries, config_loop scheduled queries0 = inr queries.
Proof.
  induction scheduled as [|q0 scheduled IH]; intros queries0 H; [now eexists|].
  inversion H as [|? ? [[name Hn] [text Hq]] Hrest]; subst. cbn [config_loop].
  rewrite Hq, Hn. now apply IH.
Qed.

Lemma config_loop_incomplete before q after :
  ∀ queries0,
  Forall complete before →
  ¬ complete q →
  config_loop (before ++ q :: after) queries0
    = inl (KeyError (match q !! "query" with Some _ => "name" | None => "query" end)).
Proof.
  induction before as [|q0 before IH]; intros queries0 Hbefore Hq.
  - cbn [app config_loop]. destruct (q !! "query") as [text|] eqn:Ht; [|reflexivity].
    destruct (q !! "name") as [name|] eqn:Hn; [|reflexivity].
    destruct Hq. unfold complete. rewrite Hn, Ht. split; now eexists.
  - inversion Hbefore as [|? ? [[name Hn] [text Ht]] Hrest]; subst.
    cbn [app config_loop]. rewrite Ht, Hn. now apply IH.
Qed.

End ConfigFacts.

(** X21.  When every scheduled query of the configuration has a name and
    a query text, queries_from_config returns a dictionary in which a name
    is mapped to the text of the last scheduled query with that name, and
    a name that no scheduled query has is absent. *)
Theorem config_queries (load_config : string → option (option (list (gmap string string))))
    (config_path : string) (scheduled : list (gmap string string)) :
  load_config config_path = Some (Some scheduled) →
  Forall Notions.complete scheduled →
  ∃ queries,
    Discovery.queries_from_config load_config config_path = inr queries
    ∧ (∀ i q name text,
         scheduled !! i = Some q → q !! "name" = Some name → q !! "query" = Some text →
         (∀ j q', i < j → scheduled !! j = Some q' → q' !! "name" ≠ Some name) →
         queries !! name = Some text)
    ∧ (∀ name, (∀ q, q ∈ scheduled → q !! "name" ≠ Some name) → queries !! name = None).
Proof.
  intros Hload Hall. unfold Discovery.queries_from_config. rewrite Hload.
  destruct (ConfigFacts.config_loop_complete scheduled ∅ Hall) as [queries Hq].
  exists queries. split; [exact Hq|].
  destruct (ConfigFacts.config_loop_lookup _ _ _ Hq) as [Hhit Hmiss].
  split; [exact Hhit|]. intros name Hno. now rewrite (Hmiss name Hno).
Qed.

Lemma config_queries_witness :
  let scheduled : list (gmap string string) :=
    [ {["name" := "q1"; "query" := "SELECT 1;"]};
      {["name" := "q1"; "query" := "SELECT 2;"]} ] in
  ∃ queries,
    Discovery.queries_from_config (λ _, Some (Some scheduled)) "osquery.conf" = inr queries
    ∧ queries !! "q1" = Some "SELECT 2;"
    ∧ queries !! "q2" = None.
Proof.
  intros scheduled.
  destruct (config_queries (λ _, Some (Some scheduled)) "osquery.conf" scheduled eq_refl)
    as (queries & Hq & Hhit & Hmiss).
  - repeat constructor; now eexists.
  - exists queries. split; [exact Hq|]. split.
    + apply (Hhit 1 {["name" := "q1"; "query" := "SELECT 2;"]}); try reflexivity.
      intros [|[|j]] q' Hj; [lia | lia | discriminate].
    + apply Hmiss. intros q Hq'. unfold scheduled in Hq'.
      rewrite !elem_of_cons, elem_of_nil in Hq'.
      destruct Hq' as [->|[->|[]]]; vm_compute; discriminate.
Defined.

(** X22.  The first scheduled query that lacks a key ends
    queries_from_config with [KeyError], on "query" when the text is
    missing and otherwise on "name"; it is not turned into an exit code. *)
Theorem config_missing_key (load_config : string → option (option (list (gmap string string))))
    (config_path : string) (before after : list (gmap string string))
    (q : gmap string string) :
  load_config config_path = Some (Some (before ++ q :: after)) →
  Forall Notions.complete before →
  ¬ Notions.complete q →
  Discovery.queries_from_config load_config config_path
    = inl (Discovery.KeyError
             (match q !! "query" with Some _ => "name" | None => "query" end)).
Proof.
  intros Hload Hbefore Hq. unfold Discovery.queries_from_config. rewrite Hload.
  now apply ConfigFacts.config_loop_incomplete.
Qed.

Lemma config_missing_key_witness :
  Discovery.queries_from_config
    (λ _, Some (Some [ {["name" := "q1"; "query" := "SELECT 1;"]};
                       {["query" := "SELECT 2;"]} ]))
    "osquery.conf"
  = inl (Discovery.KeyError "name").
Proof.
  refine (eq_trans
    (config_missing_key
       (λ _, Some (Some [ {["name" := "q1"; "query" := "SELECT 1;"]};
                          {["query" := "SELECT 2;"]} ]))
       "osquery.conf" [ {["name" := "q1"; "query" := "SELECT 1;"]} ]
       [] ({["query" := "SELECT 2;"]} : gmap string string) _ _ _) _).
  - reflexivity.
  - repeat constructor; now eexists.
  - intros [[name Hname] _]. vm_compute in Hname. discriminate.
  - reflexivity.
Defined.

(** ** queries_from_tables *)

Module TablesFacts.
Import Str StrExt Discovery.

Lemma split1_char (c : ascii) (a b : string) :
  has_char c a = false →
  split1 (String c EmptyString) (a +:+ String c b) = (a, Some b).
Proof.
  induction a as [|d a IH]; intros Ha.
  - cbn. now rewrite Ascii.eqb_refl.
  - cbn in Ha. apply orb_false_iff in Ha as [Hd Ha].
    cbn [String.append split1 startswith]. rewrite Ascii.eqb_sym, Hd. cbn [andb].
    now rewrite (IH Ha).
Qed.

Lemma second_piece (c : ascii) (a b : string) :
  has_char c a = false →
  split c (a +:+ String c b) !! 1 = split c b !! 0.
Proof. intros Ha. now rewrite (StrFacts.split_app_sep _ _ _ Ha). Qed.

Lemma tables_of_files_spec platform base files :
  is_ascii platform = true →
  (∀ spec, spec ∈ files → is_ascii spec = true) →
  ∃ tables, tables_of_files platform base files = Ok tables
    ∧ ∀ t, t ∈ tables ↔
        ∃ spec, spec ∈ files ∧ basename base ∈ ["x"; platform]
                ∧ t = basename base +:+ "." +:+ fst (split1 ".table" spec).
Proof.
  intros Hplatform. induction files as [|spec files IH]; intros Hfiles.
  - exists []. split; [reflexivity|]. intros t. split; [intros Ht; inversion Ht|].
    intros (spec & Hspec & _). inversion Hspec.
  - destruct IH as (tables & Htables & Hin);
      [intros f Hf; apply Hfiles; now apply list_elem_of_further|].
    cbn [tables_of_files]. unfold decode_ascii at 1.
    rewrite (Hfiles spec) by apply list_elem_of_here. cbn [bind].
    destruct (bool_decide (basename base ∈ ["x"; platform])) eqn:E.
    + apply bool_decide_eq_true in E.
      assert (Hdir : is_ascii (basename base) = true).
      { rewrite !elem_of_cons, elem_of_nil in E. destruct E as [->|[->|[]]];
          [reflexivity | exact Hplatform]. }
      unfold decode_ascii. rewrite Hdir, Htables. cbn [bind]. eexists. split; [reflexivity|].
      intros t. rewrite elem_of_cons, Hin. split.
      * intros [->|(f & Hf & Hd & ->)].
        -- exists spec. split; [apply list_elem_of_here | now split].
        -- exists f. split; [now apply list_elem_of_further | now split].
      * intros (f & [->|Hf]%elem_of_cons & Hd & ->); [now left | right; now exists f].
    + apply bool_decide_eq_false in E. exists tables. split; [exact Htables|].
      intros t. rewrite Hin. split.
      * intros (f & Hf & Hd & _). contradiction.
      * intros (f & _ & Hd & _). contradiction.
Qed.

Lemma tables_of_walk_spec platform walk :
  is_ascii platform = true →
  (∀ base folders files spec,
     (base, folders, files) ∈ walk → spec ∈ files → is_ascii spec = true) →
  ∃ tables, tables_of_walk platform walk = Ok tables
    ∧ ∀ t, t ∈ tables ↔
        ∃ base folders files spec,
          (base, folders, files) ∈ walk ∧ spec ∈ files
          ∧ basename base ∈ ["x"; platform]
          ∧ t = basename base +:+ "." +:+ fst (split1 ".table" spec).
Proof.
  intros Hplatform. induction walk as [|[[base folders] files] walk IH]; intros Hwalk.
  - exists []. split; [reflexivity|]. intros t. split; [intros Ht; inversion Ht|].
    intros (base & folders & files & spec & Hw & _). inversion Hw.
  - destruct IH as (rest & Hrest & Hin).
    { intros b fo fi sp Hb. apply (Hwalk b fo fi sp). now apply list_elem_of_further. }
    destruct (tables_of_files_spec platform base files Hplatform) as (here & Hhere & Hin').
    { intros sp Hsp. apply (Hwalk base folders files sp); [apply list_elem_of_here | exact Hsp]. }
    cbn [tables_of_walk]. rewrite Hhere, Hrest. cbn [bind]. eexists. split; [reflexivity|].
    intros t. rewrite elem_of_app, Hin, Hin'. split.
    + intros [(sp & Hsp & Hd & ->)|(b & fo & fi & sp & Hb & Hsp & Hd & ->)].
      * exists base, folders, files, sp. split; [apply list_elem_of_here | now repeat split].
      * exists b, fo, fi, sp. split; [now apply list_elem_of_further | now repeat split].
    + intros (b & fo & fi & sp & [[= -> -> ->]|Hb]%elem_of_cons & Hsp & Hd & ->).
      * left. now exists sp.
      * right. now exists b, fo, fi, sp.
Qed.

Lemma filter_tables_spec (rt tables : list string) :
  (∀ t, t ∈ tables → is_Some (split "." t !! 1)) →
  ∃ kept, filter_tables rt tables = Ok kept
    ∧ ∀ t, t ∈ kept ↔ t ∈ tables ∧ ∃ c, split "." t !! 1 = Some c ∧ c ∉ rt.
Proof.
  induction tables as [|t0 tables IH]; intros H.
  - exists []. split; [reflexivity|]. intros t. rewrite elem_of_nil. tauto.
  - destruct IH as (kept & Hkept & Hspec); [intros t Ht; apply H; now apply list_elem_of_further|].
    destruct (H t0) as [c0 Hc0]; [apply list_elem_of_here|].
    cbn [filter_tables]. rewrite Hc0, Hkept. cbn [bind]. eexists. split; [reflexivity|].
    intros t. destruct (bool_decide (c0 ∈ rt)) eqn:E.
    + apply bool_decide_eq_true in E. rewrite Hspec, elem_of_cons. split.
      * intros [Ht Hc]. split; [now right | exact Hc].
      * intros [[->|Ht] (c & Hc & Hnot)]; [|split; [exact Ht | now exists c]].
        rewrite Hc0 in Hc. injection Hc as <-. contradiction.
    + apply bool_decide_eq_false in E. rewrite !elem_of_cons, Hspec. split.
      * intros [->|[Ht Hc]]; [split; [now left | now exists c0] | split; [now right | exact Hc]].
      * intros [[->|Ht] Hc]; [now left | right; now split].
Qed.

Lemma build_queries_spec (tables : list string) :
  (∀ t, t ∈ tables → is_Some (snd (split1 "." t))) →
  ∀ queries0,
  ∃ queries, build_queries tables queries0 = Ok queries
    ∧ ∀ key, queries !! key =
        if bool_decide (key ∈ tables)
        then (λ name, "SELECT * FROM " +:+ name +:+ ";") <$> snd (split1 "." key)
        else queries0 !! key.
Proof.
  induction tables as [|t0 tables IH]; intros H queries0.
  - exists queries0. split; [reflexivity|]. intros key.
    now rewrite bool_decide_eq_false_2 by apply not_elem_of_nil.
  - destruct (H t0) as [name0 Hname0]; [apply list_elem_of_here|].
    cbn [build_queries]. rewrite Hname0.
    destruct (IH (λ t Ht, H t (list_elem_of_further _ _ _ Ht))
                (<[t0 := "SELECT * FROM " +:+ name0 +:+ ";"]> queries0))
      as (queries & Hq & Hlookup).
    exists queries. split; [exact Hq|]. intros key. rewrite Hlookup.
    destruct (bool_decide (key ∈ tables)) eqn:E.
    + apply bool_decide_eq_true in E.
      now rewrite (bool_decide_eq_true_2 (key ∈ t0 :: tables)) by now apply list_elem_of_further.
    + apply bool_decide_eq_false in E. destruct (decide (key = t0)) as [->|Hne].
      * rewrite (bool_decide_eq_true_2 (t0 ∈ t0 :: tables)) by apply list_elem_of_here.
        now rewrite lookup_insert_eq, Hname0.
      * rewrite lookup_insert_ne by congruence.
        rewrite (bool_decide_eq_false_2 (key ∈ t0 :: tables)); [reflexivity|].
        rewrite elem_of_cons. intuition.
Qed.

End TablesFacts.

(** X23.  For an ASCII platform name without a dot, an ASCII list of
    restricted tables and ASCII file names, queries_from_tables does not
    raise, and its dictionary has exactly one kind of entry: for a
    specification file in a directory named "x" or after the platform, with
    [name] the file name up to ".table", the key is the directory name, a
    dot and [name], the text is "SELECT * FROM name;", and the entry is
    there unless the part of [name] before its first dot is one of the
    restricted tables. *)
Theorem tables_queries (platform : string)
    (walk : list (string * list string * list string)) (restrict : string) :
  Str.is_ascii platform = true →
  Str.has_char "." platform = false →
  Str.is_ascii restrict = true →
  (∀ base folders files spec,
     (base, folders, files) ∈ walk → spec ∈ files → Str.is_ascii spec = true) →
  ∃ queries,
    Discovery.queries_from_tables platform walk restrict = Ok queries
    ∧ ∀ key text,
        queries !! key = Some text ↔
        ∃ base folders files spec,
          (base, folders, files) ∈ walk ∧ spec ∈ files
          ∧ StrExt.basename base ∈ ["x"; platform]
          ∧ key = StrExt.basename base +:+ "." +:+ fst (StrExt.split1 ".table" spec)
          ∧ (∃ c, Str.split "." (fst (StrExt.split1 ".table" spec)) !! 0 = Some c
                  ∧ c ∉ Str.strip <$> Str.split "," restrict)
          ∧ text = "SELECT * FROM " +:+ fst (StrExt.split1 ".table" spec) +:+ ";".
Proof.
  intros Hascii Hplatform Hrestrict Hnames.
  unfold Discovery.queries_from_tables, Discovery.restrict_tables, decode_ascii.
  rewrite Hrestrict. cbn [bind].
  destruct (TablesFacts.tables_of_walk_spec platform walk Hascii Hnames)
    as (tables & Htables & Hwalked).
  rewrite Htables. cbn [bind].
  assert (Hshape : ∀ t, t ∈ tables →
    ∃ dir name, t = dir +:+ String "." name ∧ Str.has_char "." dir = false).
  { intros t (base & folders & files & spec & _ & _ & Hdir & ->)%Hwalked.
    eexists _, _. split; [reflexivity|].
    rewrite !elem_of_cons, elem_of_nil in Hdir. destruct Hdir as [->|[->|[]]];
      [reflexivity | exact Hplatform]. }
  destruct (TablesFacts.filter_tables_spec (Str.strip <$> Str.split "," restrict) tables)
    as (kept & Hkept & Hin).
  { intros t (dir & name & -> & Hdir)%Hshape.
    rewrite (TablesFacts.second_piece _ _ _ Hdir).
    destruct (StrFacts.split_cons "." name) as (piece & rest & ->). now eexists. }
  rewrite Hkept. cbn [bind].
  destruct (TablesFacts.build_queries_spec kept) with (queries0 := (∅ : gmap string string))
    as (queries & Hq & Hlookup).
  { intros t [Ht _]%Hin. destruct (Hshape t Ht) as (dir & name & -> & Hdir).
    rewrite (TablesFacts.split1_char _ _ _ Hdir). now eexists. }
  exists queries. split; [exact Hq|]. intros key text. rewrite Hlookup. split.
  - destruct (bool_decide (key ∈ kept)) eqn:E; [|now rewrite lookup_empty].
    apply bool_decide_eq_true, Hin in E as [Hkey (c & Hc & Hnot)].
    pose proof Hkey as (base & folders & files & spec & Hwalk & Hspec & Hdir & ->)%Hwalked.
    assert (Hnodot : Str.has_char "." (StrExt.basename base) = false).
    { rewrite !elem_of_cons, elem_of_nil in Hdir. destruct Hdir as [->|[->|[]]];
        [reflexivity | exact Hplatform]. }
    change (StrExt.basename base +:+ "." +:+ fst (StrExt.split1 ".table" spec))
      with (StrExt.basename base +:+ String "." (fst (StrExt.split1 ".table" spec))) in *.
    rewrite (TablesFacts.split1_char _ _ _ Hnodot). cbn [snd fmap option_fmap option_map].
    intros [= <-]. rewrite (TablesFacts.second_piece _ _ _ Hnodot) in Hc.
    exists base, folders, files, spec. repeat split; try assumption. now exists c.
  - intros (base & folders & files & spec & Hwalk & Hspec & Hdir & -> & (c & Hc & Hnot) & ->).
    assert (Hnodot : Str.has_char "." (StrExt.basename base) = false).
    { rewrite !elem_of_cons, elem_of_nil in Hdir. destruct Hdir as [->|[->|[]]];
        [reflexivity | exact Hplatform]. }
    change (StrExt.basename base +:+ "." +:+ fst (StrExt.split1 ".table" spec))
      with (StrExt.basename base +:+ String "." (fst (StrExt.split1 ".table" spec))).
    rewrite bool_decide_eq_true_2.
    + now rewrite (TablesFacts.split1_char _ _ _ Hnodot).
    + apply Hin. split.
      * apply Hwalked. now exists base, folders, files, spec.
      * exists c. now rewrite (TablesFacts.second_piece _ _ _ Hnodot).
Qed.

Lemma tables_queries_witness :
  let walk :=
    [ ("specs/x", [], ["users.table"; "etc.hosts.table"; "time.table"]);
      ("specs/darwin", [], ["nvram.table"]);
      ("specs/linux", [], ["kernel_modules.table"]) ] in
  ∃ queries,
    Discovery.queries_from_tables "linux" walk "users, etc" = Ok queries
    ∧ queries !! "linux.kernel_modules" = Some "SELECT * FROM kernel_modules;"
    ∧ queries !! "x.time" = Some "SELECT * FROM time;"
    ∧ queries !! "x.users" = None
    ∧ queries !! "x.etc.hosts" = None
    ∧ queries !! "darwin.nvram" = None.
Proof.
  intros walk.
  assert (Hnames : ∀ base folders files spec,
            (base, folders, files) ∈ walk → spec ∈ files → Str.is_ascii spec = true).
  { intros base folders files spec Hw Hs. unfold walk in Hw.
    rewrite !elem_of_cons, elem_of_nil in Hw.
    destruct Hw as [Hw|[Hw|[Hw|[]]]]; injection Hw as -> -> ->;
      rewrite !elem_of_cons, elem_of_nil in Hs; intuition (subst; reflexivity). }
  destruct (tables_queries "linux" walk "users, etc" eq_refl eq_refl eq_refl Hnames)
    as (queries & Hq & Hspec).
  exists queries. split; [exact Hq|]. split.
  - apply Hspec. exists "specs/linux", [], ["kernel_modules.table"], "kernel_modules.table".
    split; [unfold walk; rewrite !elem_of_cons; tauto|].
    split; [apply list_elem_of_here|].
    split; [exact (list_elem_of_further _ _ _ (list_elem_of_here _ _))|].
    split; [reflexivity|]. split; [|reflexivity].
    exists "kernel_modules". split; [reflexivity|].
    rewrite list_elem_of_In. vm_compute. intuition discriminate.
  - vm_compute in Hq. injection Hq as <-. repeat split.
Defined.

(** ** The main block *)

(** X24.  A single query given on the command line still needs the tables
    path: without a configuration file, discovery exits with status 1 when
    the shell or the tables path does not exist, also when a query is
    given; otherwise the query is the only one, under the name "manual",
    and the tables are not read. *)
Theorem manual_query_needs_tables (path_exists : string → bool)
    (load_config : string → option (option (list (gmap string string))))
    (os_walk : string → list (string * list string * list string))
    (platform : string) (a : Discovery.args) (query : string) :
  Discovery.a_config a = None →
  Discovery.a_query a = Some query →
  Discovery.discover path_exists load_config os_walk platform a =
    if path_exists (Discovery.a_shell a) && path_exists (Discovery.a_tables a)
    then inr {["manual" := query]}
    else inl (Discovery.SystemExit 1).
Proof.
  intros Hconfig Hquery. unfold Discovery.discover. rewrite Hconfig, Hquery.
  destruct (path_exists (Discovery.a_shell a)); [|reflexivity].
  now destruct (path_exists (Discovery.a_tables a)).
Qed.

Lemma manual_query_needs_tables_witness :
  Discovery.discover (λ path, String.eqb path "./build/linux/tools/run")
    (λ _, None) (λ _, []) "linux"
    {| Discovery.a_restrict := EmptyString;
       Discovery.a_tables := "./osquery/tables/specs";
       Discovery.a_config := None;
       Discovery.a_output := None;
       Discovery.a_summary := false;
       Discovery.a_query := Some "SELECT 1;";
       Discovery.a_shell := "./build/linux/tools/run" |}
  = inl (Discovery.SystemExit 1).
Proof.
  exact (manual_query_needs_tables (λ path, String.eqb path "./build/linux/tools/run")
           (λ _, None) (λ _, []) "linux"
           {| Discovery.a_restrict := EmptyString;
              Discovery.a_tables := "./osquery/tables/specs";
              Discovery.a_config := None;
              Discovery.a_output := None;
              Discovery.a_summary := false;
              Discovery.a_query := Some "SELECT 1;";
              Discovery.a_shell := "./build/linux/tools/run" |}
           "SELECT 1;" eq_refl eq_refl).
Defined.

(** X25.  The statistics and the summary are never both written; with the
    summary flag and no output path, the run ends with [TypeError] after
    the profiling is done, and nothing is written. *)
Theorem summary_needs_output (a : Discovery.args) (results : gmap string (gmap string Q)) :
  match Discovery.write_outputs a results with
  | inl stop => stop = Discovery.TypeError
                ∧ Discovery.a_summary a = true ∧ Discovery.a_output a = None
  | inr written =>
      (Discovery.a_summary a = true → Discovery.a_output a ≠ None)
      ∧ match Discovery.a_output a with
        | None => written = []
        | Some output =>
            written = [(output, if Discovery.a_summary a
                                then Discovery.Summary (Profile.summary results)
                                else Discovery.Stats results)]
        end
  end.
Proof.
  unfold Discovery.write_outputs.
  destruct (Discovery.a_summary a), (Discovery.a_output a); cbn; repeat split; congruence.
Qed.
